(** * secure-auth-api: credential authentication and session lifecycle

    A shallow embedding of [src/utils/tokenManager.js],
    [src/controllers/authController.js], [src/middleware/auth.js], the
    routes of [src/routes/auth.js] and the string functions of the server's
    sanitization middleware.

    Conventions of the embedding.
    - Time is the number of milliseconds since the epoch, a [Z].  In
      [AuthController] one request reads the clock as one instant [now]
      ([Date.now()], [new Date()] and the SQL [NOW()] of one request agree).
    - The [users] table is a list of rows and every SQL statement of the
      controller is a constructor of [Query] with its meaning in [exec].
      In [exec] a timestamp column returns the instant that was written and
      columns are mathematical integers and strings (no width limit).
    - [Deployed.login] and [Deployed.refreshToken] lift these conventions:
      one instant per clock read, timestamps written and parsed as wall clock
      of the process time zone, and the 32-bit range of
      [failed_login_attempts]; [deployed_login_at_one_instant] and
      [deployed_refresh_at_one_instant] relate the two.
    - [pool.query] can throw: the world carries a list of pending faults, one
      boolean per statement still to come ([true]: this statement fails and
      has no effect).  An empty list is a healthy connection.
    - JavaScript exceptions are the [Throw] completion; [try { } catch { }]
      is [try_catch].  Writes made before a throw stay in the world.
    - The libraries [jsonwebtoken] and [bcryptjs] are interfaces: the MAC and
      the password hash are class methods, and no property of them is
      assumed.  The two signing secrets are configuration.
    - [logger] calls are not modelled: they neither touch the store nor
      change the control flow. *)

From Stdlib Require Import ZArith List String Ascii Bool Lia.
Import ListNotations.

Local Open Scope Z_scope.
Local Open Scope string_scope.

Set Implicit Arguments.

(** ** Completions: a value, or a thrown JavaScript [Error] *)

Inductive Exception := Error (msg : string).

Inductive Completion (A : Type) :=
| Normal (a : A)
| Throw (e : Exception).

Arguments Normal {A} a.
Arguments Throw {A} e.

(** [try { body } catch (error) { handler }] for code without store effects. *)
Definition catching {A} (body : Completion A) (handler : Exception -> Completion A)
  : Completion A :=
  match body with
  | Normal a => Normal a
  | Throw e => handler e
  end.

Definition option_eqb {A} (eqb : A -> A -> bool) (x y : option A) : bool :=
  match x, y with
  | Some a, Some b => eqb a b
  | None, None => true
  | _, _ => false
  end.

(** ** jsonwebtoken *)

Module jwt.

  (** The decoded payload of a token: the claims given to [jwt.sign] and the
      registered claims [iat], [exp] and [iss] it adds (all in seconds). *)
Record Claims := mkClaims {
    userId : Z;
    email : option string;     (* absent in refresh tokens *)
    type : string;
    iat : Z;
    exp : Z;
    iss : string
  }.

  (** A token string: either it decodes to a payload and a signature, or
      [jwt.verify] cannot decode it at all. *)
Inductive Token :=
  | JWT (claims : Claims) (signature : string)
  | Malformed (raw : string).

Definition claims_eqb (a b : Claims) : bool :=
    (userId a =? userId b)%Z
    && option_eqb String.eqb (email a) (email b)
    && String.eqb (type a) (type b)
    && (iat a =? iat b)%Z
    && (exp a =? exp b)%Z
    && String.eqb (iss a) (iss b).

  (** String equality of two tokens ([===] on the encoded strings). *)
Definition token_eqb (a b : Token) : bool :=
    match a, b with
    | JWT ca sa, JWT cb sb => claims_eqb ca cb && String.eqb sa sb
    | Malformed ra, Malformed rb => String.eqb ra rb
    | _, _ => false
    end.

  (** HS256: the signature of a payload under a secret. *)
Class HMAC := hmac_sha256 : string -> Claims -> string.

Section sign_verify.
Context {mac : HMAC}.

    (** [jwt.sign(payload, secret, { expiresIn, issuer })], with [expiresIn]
        already converted to seconds. *)
Definition sign (now : Z) (payload_userId : Z) (payload_email : option string)
        (payload_type : string) (secret : string) (expiresIn : Z) (issuer : string)
      : Token :=
      let timestamp := now / 1000 in
      let payload := {| userId := payload_userId; email := payload_email;
                        type := payload_type; iat := timestamp;
                        exp := timestamp + expiresIn; iss := issuer |} in
      JWT payload (hmac_sha256 secret payload).

    (** [jwt.verify(token, secret)]: decode, check the signature, then the
        expiry ([clockTimestamp >= payload.exp] is expired). *)
Definition verify (now : Z) (token : Token) (secret : string) : Completion Claims :=
      match token with
      | Malformed _ => Throw (Error "jwt malformed")
      | JWT payload signature =>
          if negb (String.eqb signature (hmac_sha256 secret payload))
          then Throw (Error "invalid signature")
          else if (now / 1000 >=? exp payload)%Z
          then Throw (Error "jwt expired")
          else Normal payload
      end.
End sign_verify.

End jwt.

(** ** bcryptjs *)

Module bcrypt.
  (** [hash(password, rounds)] draws a random salt, made an argument here;
      [compare(password, hash)] is the library's verdict. *)
Class Bcrypt := {
    hash : string -> Z -> string -> string;
    compare : string -> string -> bool
  }.
End bcrypt.

(** ** Configuration: the two signing secrets of tokenManager.js *)

Class Secrets := {
  JWT_SECRET : string;
  JWT_REFRESH_SECRET : string
}.

(** ** src/utils/tokenManager.js *)

Module TokenManager.

Record TokenPair := mkTokenPair {
    accessToken : jwt.Token;
    refreshToken : jwt.Token;
    expiresIn : Z
  }.

Section TokenManager.
Context {mac : jwt.HMAC} {secrets : Secrets}.

    (* Generate Access Token (short-lived: 15 minutes) *)
Definition generateAccessToken (now : Z) (userId : Z) (email : string) : jwt.Token :=
      jwt.sign now userId (Some email) "access" JWT_SECRET (15 * 60) "secure-auth-api".

    (* Generate Refresh Token (long-lived: 7 days) *)
Definition generateRefreshToken (now : Z) (userId : Z) : jwt.Token :=
      jwt.sign now userId None "refresh" JWT_REFRESH_SECRET (7 * 24 * 60 * 60)
               "secure-auth-api".

    (* Verify Access Token *)
Definition verifyAccessToken (now : Z) (token : jwt.Token) : Completion jwt.Claims :=
      catching
        (match jwt.verify now token JWT_SECRET with
         | Normal decoded =>
             if negb (String.eqb (jwt.type decoded) "access")
             then Throw (Error "Invalid token type")
             else Normal decoded
         | Throw e => Throw e
         end)
        (fun _ => Throw (Error "Invalid or expired access token")).

    (* Verify Refresh Token *)
Definition verifyRefreshToken (now : Z) (token : jwt.Token) : Completion jwt.Claims :=
      catching
        (match jwt.verify now token JWT_REFRESH_SECRET with
         | Normal decoded =>
             if negb (String.eqb (jwt.type decoded) "refresh")
             then Throw (Error "Invalid token type")
             else Normal decoded
         | Throw e => Throw e
         end)
        (fun _ => Throw (Error "Invalid or expired refresh token")).

    (* Generate token pair *)
Definition generateTokenPair (now : Z) (userId : Z) (email : string) : TokenPair :=
      {| accessToken := generateAccessToken now userId email;
         refreshToken := generateRefreshToken now userId;
         expiresIn := 900 |}.
End TokenManager.

End TokenManager.

(** ** The [users] table (src/config/database.js) *)

Module users.
Record User := mkUser {
  id : Z;                                  (* SERIAL PRIMARY KEY *)
  email : string;                          (* UNIQUE NOT NULL *)
  password_hash : string;
  refresh_token : option jwt.Token;
  refresh_token_expires : option Z;
  failed_login_attempts : Z;               (* DEFAULT 0 *)
  account_locked_until : option Z;
  last_login : option Z;
  created_at : Z;                          (* DEFAULT CURRENT_TIMESTAMP *)
  updated_at : Z                           (* DEFAULT CURRENT_TIMESTAMP *)
}.
End users.
Import users.

Record Database := mkDatabase {
  rows : list User;
  users_id_seq : Z                         (* last value of the SERIAL sequence *)
}.

Definition empty_database : Database := {| rows := []; users_id_seq := 0 |}.

(** The SQL statements the controller sends, with their parameters. *)
Inductive Query :=
| SelectIdByEmail (e : string)
    (* SELECT id FROM users WHERE email = $1 *)
| InsertUser (e passwordHash : string)
    (* INSERT INTO users (email, password_hash) VALUES ($1, $2)
       RETURNING id, email, created_at *)
| UpdateRefreshToken (token : jwt.Token) (expires : Z) (i : Z)
    (* UPDATE users SET refresh_token = $1, refresh_token_expires = $2 WHERE id = $3 *)
| SelectCredentialsByEmail (e : string)
    (* SELECT id, email, password_hash, failed_login_attempts,
       account_locked_until FROM users WHERE email = $1 *)
| UpdateFailedAttempts (attempts : Z) (lockUntil : option Z) (i : Z)
    (* UPDATE users SET failed_login_attempts = $1, account_locked_until = $2
       WHERE id = $3 *)
| ResetFailedAttempts (i : Z)
    (* UPDATE users SET failed_login_attempts = 0, account_locked_until = NULL,
       last_login = NOW() WHERE id = $1 *)
| SelectSessionById (i : Z)
    (* SELECT id, email, refresh_token, refresh_token_expires FROM users
       WHERE id = $1 *)
| ClearRefreshToken (i : Z).
    (* UPDATE users SET refresh_token = NULL, refresh_token_expires = NULL
       WHERE id = $1 *)

Definition set_session (token : option jwt.Token) (expires : option Z) (u : User) : User :=
  {| id := id u; email := email u; password_hash := password_hash u;
     refresh_token := token; refresh_token_expires := expires;
     failed_login_attempts := failed_login_attempts u;
     account_locked_until := account_locked_until u;
     last_login := last_login u; created_at := created_at u;
     updated_at := updated_at u |}.

Definition set_lockout (attempts : Z) (lockUntil : option Z) (lastLogin : option Z)
    (u : User) : User :=
  {| id := id u; email := email u; password_hash := password_hash u;
     refresh_token := refresh_token u;
     refresh_token_expires := refresh_token_expires u;
     failed_login_attempts := attempts;
     account_locked_until := lockUntil;
     last_login := lastLogin; created_at := created_at u;
     updated_at := updated_at u |}.

Definition where_email (e : string) (u : User) : bool := String.eqb (email u) e.
Definition where_id (i : Z) (u : User) : bool := (id u =? i)%Z.

(** [UPDATE users SET ... WHERE id = i]: every matching row is rewritten. *)
Definition update_where_id (i : Z) (f : User -> User) (rows : list User) : list User :=
  map (fun u => if where_id i u then f u else u) rows.

Definition new_user (i : Z) (e passwordHash : string) (now : Z) : User :=
  {| id := i; email := e; password_hash := passwordHash;
     refresh_token := None; refresh_token_expires := None;
     failed_login_attempts := 0; account_locked_until := None;
     last_login := None; created_at := now; updated_at := now |}.

(** The result rows of a statement and the table after it.  A rejected
    INSERT (duplicate email) throws and still consumes a sequence value. *)
Definition exec (now : Z) (q : Query) (d : Database)
  : Completion (list User) * Database :=
  match q with
  | SelectIdByEmail e | SelectCredentialsByEmail e =>
      (Normal (filter (where_email e) (rows d)), d)
  | SelectSessionById i =>
      (Normal (filter (where_id i) (rows d)), d)
  | InsertUser e passwordHash =>
      let i := users_id_seq d + 1 in
      if existsb (where_email e) (rows d)
      then (Throw (Error "duplicate key value violates unique constraint"),
            {| rows := rows d; users_id_seq := i |})
      else let row := new_user i e passwordHash now in
           (Normal [row], {| rows := rows d ++ [row]; users_id_seq := i |})
  | UpdateRefreshToken token expires i =>
      (Normal [],
       {| rows := update_where_id i (set_session (Some token) (Some expires)) (rows d);
          users_id_seq := users_id_seq d |})
  | UpdateFailedAttempts attempts lockUntil i =>
      (Normal [],
       {| rows := update_where_id i
                     (fun u => set_lockout attempts lockUntil (last_login u) u) (rows d);
          users_id_seq := users_id_seq d |})
  | ResetFailedAttempts i =>
      (Normal [],
       {| rows := update_where_id i (set_lockout 0 None (Some now)) (rows d);
          users_id_seq := users_id_seq d |})
  | ClearRefreshToken i =>
      (Normal [],
       {| rows := update_where_id i (set_session None None) (rows d);
          users_id_seq := users_id_seq d |})
  end.

(** ** The world of a request handler *)

Inductive Event :=
| EvQuery (q : Query)                          (* pool.query *)
| EvBcryptHash (password : string) (rounds : Z)   (* bcrypt.hash *)
| EvBcryptCompare (password passwordHash : string).  (* bcrypt.compare *)

Record World := mkWorld {
  db : Database;
  faults : list bool;      (* pending persistence failures, next statement first *)
  trace : list Event       (* external calls made so far, most recent first *)
}.

(** A world with a healthy connection and no call made yet. *)
Definition healthy (d : Database) : World :=
  {| db := d; faults := []; trace := [] |}.

Definition M (A : Type) : Type := World -> Completion A * World.

Definition ret {A} (a : A) : M A := fun w => (Normal a, w).

Definition bind {A B} (m : M A) (k : A -> M B) : M B :=
  fun w => match m w with
           | (Normal a, w') => k a w'
           | (Throw e, w') => (Throw e, w')
           end.

Definition lift {A} (c : Completion A) : M A := fun w => (c, w).

(** [try { body } catch (error) { handler }]: the handler runs in the world
    the body left behind. *)
Definition try_catch {A} (body : M A) (handler : Exception -> M A) : M A :=
  fun w => match body w with
           | (Normal a, w') => (Normal a, w')
           | (Throw e, w') => handler e w'
           end.

Declare Scope js_scope.
Delimit Scope js_scope with js.
Notation "x <- m ;; k" := (bind m (fun x => k))
  (at level 100, m at next level, right associativity) : js_scope.
Notation "'await' m ;; k" := (bind m (fun _ => k))
  (at level 100, m at next level, right associativity) : js_scope.

Definition record (e : Event) (w : World) : World :=
  {| db := db w; faults := faults w; trace := e :: trace w |}.

(** [await pool.query(text, params)] *)
Definition pool_query (now : Z) (q : Query) : M (list User) :=
  fun w =>
    match faults w with
    | true :: pending =>
        (Throw (Error "Connection terminated unexpectedly"),
         {| db := db w; faults := pending; trace := EvQuery q :: trace w |})
    | pending =>
        let (result, d) := exec now q (db w) in
        (result, {| db := d; faults := tl pending; trace := EvQuery q :: trace w |})
    end.

Section Handlers.
Context {mac : jwt.HMAC} {hasher : bcrypt.Bcrypt} {secrets : Secrets}.

  (** [await bcrypt.hash(password, rounds)] *)
Definition bcrypt_hash (password : string) (rounds : Z) (salt : string) : M string :=
    fun w => (Normal (bcrypt.hash password rounds salt),
              record (EvBcryptHash password rounds) w).

  (** [await bcrypt.compare(password, hash)] *)
Definition bcrypt_compare (password passwordHash : string) : M bool :=
    fun w => (Normal (bcrypt.compare password passwordHash),
              record (EvBcryptCompare password passwordHash) w).
End Handlers.

(** ** HTTP responses: [res.status(code).json({ success, message, data })] *)

Inductive Data :=
| RegisteredUser (userId : Z) (userEmail : string) (createdAt : Z)
                 (tokens : TokenManager.TokenPair)
| LoggedInUser (userId : Z) (userEmail : string) (tokens : TokenManager.TokenPair)
| NewTokens (tokens : TokenManager.TokenPair).

Record Response := mkResponse {
  status : Z;
  success : bool;
  message : option string;
  data : option Data
}.

Definition failure (code : Z) (msg : string) : Response :=
  {| status := code; success := false; message := Some msg; data := None |}.

(** The error kinds of the service boundary, as the controller answers them. *)
Definition Conflict : Response := failure 409 "User already exists".
Definition InvalidCredentials : Response := failure 401 "Invalid credentials".
Definition AccountLocked : Response :=
  failure 403 "Account temporarily locked due to multiple failed login attempts".

(** A refresh is refused as an invalid token by any of three 401 answers. *)
Definition InvalidToken (r : Response) : Prop :=
  r = failure 401 "Invalid refresh token"
  \/ r = failure 401 "Invalid or expired refresh token"
  \/ r = failure 401 "Token refresh failed".

(** [new Date(value)] of a nullable TIMESTAMP column: [null] is the epoch. *)
Definition Date (value : option Z) : Z :=
  match value with
  | Some t => t
  | None => 0
  end.

(** ** src/controllers/authController.js *)

Module AuthController.
Section AuthController.
Context {mac : jwt.HMAC} {hasher : bcrypt.Bcrypt} {secrets : Secrets}.
Local Open Scope js_scope.

    (* Register new user *)
Definition register (now : Z) (salt : string) (email password : string) : M Response :=
      try_catch
        ((* Check if user exists *)
         existingUser <- pool_query now (SelectIdByEmail email) ;;
         if (0 <? Z.of_nat (List.length existingUser))%Z
         then ret Conflict
         else
           (* Hash password with salt rounds of 12 *)
           passwordHash <- bcrypt_hash password 12 salt ;;
           (* Insert user *)
           result <- pool_query now (InsertUser email passwordHash) ;;
           match result with
           | [] => lift (Throw (Error "Cannot read properties of undefined"))
           | user :: _ =>
               (* Generate tokens *)
               let tokens := TokenManager.generateTokenPair now (id user) (users.email user) in
               (* Store refresh token in database *)
               let refreshTokenExpiry := now + 7 * 24 * 60 * 60 * 1000 in
               await pool_query now
                 (UpdateRefreshToken (TokenManager.refreshToken tokens)
                                     refreshTokenExpiry (id user)) ;;
               ret {| status := 201; success := true;
                      message := Some "User registered successfully";
                      data := Some (RegisteredUser (id user) (users.email user)
                                                   (created_at user) tokens) |}
           end)
        (fun error => ret (failure 500 "Registration failed")).
(* Login user *)
Definition login (now : Z) (email password : string) : M Response :=
  try_catch
    ((* Get user *)
     result <- pool_query now (SelectCredentialsByEmail email) ;;
     match result with
     | [] => ret InvalidCredentials
     | user :: _ =>
         (* Check if account is locked *)
         if match account_locked_until user with
            | Some lockedUntil => (now <? lockedUntil)%Z
            | None => false
            end
         then ret AccountLocked
         else
           (* Verify password *)
           isValidPassword <- bcrypt_compare password (password_hash user) ;;
           if negb isValidPassword
           then
             (* Increment failed attempts *)
             let newFailedAttempts := failed_login_attempts user + 1 in
             (* Lock account after 5 failed attempts for 15 minutes *)
             let lockUntil := if (newFailedAttempts >=? 5)%Z
                              then Some (now + 15 * 60 * 1000)
                              else None in
             await pool_query now
               (UpdateFailedAttempts newFailedAttempts lockUntil (id user)) ;;
             ret InvalidCredentials
           else
             (* Successful login - reset failed attempts *)
             await pool_query now (ResetFailedAttempts (id user)) ;;
             (* Generate tokens *)
             let tokens := TokenManager.generateTokenPair now (id user) (users.email user) in
             (* Store refresh token *)
             let refreshTokenExpiry := now + 7 * 24 * 60 * 60 * 1000 in
             await pool_query now
               (UpdateRefreshToken (TokenManager.refreshToken tokens)
                                   refreshTokenExpiry (id user)) ;;
             ret {| status := 200; success := true;
                    message := Some "Login successful";
                    data := Some (LoggedInUser (id user) (users.email user) tokens) |}
     end)
    (fun error => ret (failure 500 "Login failed")).

(* Refresh access token *)
Definition refreshToken (now : Z) (refreshToken : jwt.Token) : M Response :=
  try_catch
    ((* Verify refresh token *)
     decoded <- lift (TokenManager.verifyRefreshToken now refreshToken) ;;
     (* Check if refresh token exists in database and is not expired *)
     result <- pool_query now (SelectSessionById (jwt.userId decoded)) ;;
     match result with
     | [] => ret (failure 401 "Invalid refresh token")
     | user :: _ =>
         (* Verify token matches and is not expired *)
         if negb (option_eqb jwt.token_eqb (refresh_token user) (Some refreshToken))
            || (now >? Date (refresh_token_expires user))%Z
         then ret (failure 401 "Invalid or expired refresh token")
         else
           (* Generate new token pair (refresh token rotation) *)
           let newTokens := TokenManager.generateTokenPair now (id user) (users.email user) in
           (* Update refresh token in database *)
           let newRefreshTokenExpiry := now + 7 * 24 * 60 * 60 * 1000 in
           await pool_query now
             (UpdateRefreshToken (TokenManager.refreshToken newTokens)
                                 newRefreshTokenExpiry (id user)) ;;
           ret {| status := 200; success := true; message := None;
                  data := Some (NewTokens newTokens) |}
     end)
    (fun error => ret (failure 401 "Token refresh failed")).

(* Logout user; [user] is [req.user], set by the [authenticate] middleware *)
Definition logout (now : Z) (user : jwt.Claims) : M Response :=
  try_catch
    (let userId := jwt.userId user in
     (* Invalidate refresh token *)
     await pool_query now (ClearRefreshToken userId) ;;
     ret {| status := 200; success := true;
            message := Some "Logout successful"; data := None |})
    (fun error => ret (failure 500 "Logout failed")).

End AuthController.
End AuthController.

(** ** src/middleware/auth.js *)

(** The [Authorization] header of a request. *)
Inductive Authorization :=
| NoHeader
| Bearer (token : jwt.Token)       (* "Bearer " followed by the token *)
| OtherScheme (value : string).

Section Middleware.
Context {mac : jwt.HMAC} {secrets : Secrets}.

(** [authenticate]: either answers 401 itself, or sets [req.user] and calls
    [next()]. *)
Definition authenticate (now : Z) (authHeader : Authorization) : Response + jwt.Claims :=
  match authHeader with
  | NoHeader | OtherScheme _ => inl (failure 401 "No token provided")
  | Bearer token =>
      match TokenManager.verifyAccessToken now token with
      | Normal decoded => inr decoded
      | Throw error => inl (failure 401 "Invalid or expired token")
      end
  end.
End Middleware.

(** ** src/routes/auth.js: the four operations of the service boundary *)

Inductive Request :=
| PostRegister (salt email password : string)
| PostLogin (email password : string)
| PostRefresh (refreshToken : jwt.Token)
| PostLogout (authorization : Authorization).

Section Routes.
Context {mac : jwt.HMAC} {hasher : bcrypt.Bcrypt} {secrets : Secrets}.

Definition route (now : Z) (req : Request) : M Response :=
  match req with
  | PostRegister salt email password => AuthController.register now salt email password
  | PostLogin email password => AuthController.login now email password
  | PostRefresh refreshToken => AuthController.refreshToken now refreshToken
  | PostLogout authorization =>
      match authenticate now authorization with
      | inl response => ret response
      | inr user => AuthController.logout now user
      end
  end.

(** The answer of a handler; the [try]/[catch] of every handler turns a
    throw into a response, so the second case never runs (see
    [route_never_throws]). *)
Definition answer (r : Completion Response * World) : Response :=
  match fst r with
  | Normal response => response
  | Throw _ => failure 500 "Internal server error"
  end.

(** The stored state after a handler. *)
Definition store (r : Completion Response * World) : Database := db (snd r).

(** Databases the service can reach from the empty table: any requests, at
    any instants, under any persistence failures. *)
Inductive reachable : Database -> Prop :=
| reachable_empty : reachable empty_database
| reachable_route d now req pending calls :
    reachable d ->
    reachable (store (route now req {| db := d; faults := pending; trace := calls |})).

End Routes.

(** [GET /me]: behind [authenticate], answers the id and email the access
    token carries; the store is not consulted. *)
Inductive MeAnswer :=
| MeRefused (response : Response)
| MeUser (userId : Z) (userEmail : option string).
    (* { success: true, data: { user: { id, email } } } *)

Section Me.
Context {mac : jwt.HMAC} {secrets : Secrets}.

Definition me (now : Z) (authorization : Authorization) : MeAnswer :=
  match authenticate now authorization with
  | inl response => MeRefused response
  | inr user => MeUser (jwt.userId user) (jwt.email user)
  end.
End Me.

(** ** The sanitization middleware of the server: its string functions *)

(** [s.replace(/c/g, by)] for a one-character pattern. *)
Fixpoint replace_all (c : ascii) (by_ : string) (s : string) : string :=
  match s with
  | EmptyString => EmptyString
  | String a rest =>
      if Ascii.eqb a c
      then by_ ++ replace_all c by_ rest
      else String a (replace_all c by_ rest)
  end.

(** [escapeHtml(obj)] when [typeof obj === 'string']: six global
    replacements, in this order. *)
Definition escapeHtml (obj : string) : string :=
  replace_all "/" "&#x2F;"
    (replace_all "'" "&#x27;"
       (replace_all "034" "&quot;"
          (replace_all ">" "&gt;"
             (replace_all "<" "&lt;"
                (replace_all "&" "&amp;" obj))))).

(** The key [sanitizeObject] stores a property under:
    [key.replace(/^\$/, '').replace(/\./g, '')]. *)
Definition sanitizedKey (key : string) : string :=
  replace_all "." ""
    (match key with
     | String "$" rest => rest
     | _ => key
     end).

(** ** Login as deployed: clock reads, the driver's timestamps, INTEGER

    [AuthController.login] above reads the clock once and lets the table
    return a timestamp as the instant that was written.  [Deployed.login] is
    the same handler with the three conventions lifted:
    - every clock read of the handler has its own instant ([LoginClock]);
    - a [Date] parameter is written to a [TIMESTAMP] (without time zone)
      column as the wall clock of the process time zone, and the column is
      parsed back as a wall clock of that zone ([written], [parsed]);
    - [failed_login_attempts] is an [INTEGER] column: a value outside the
      32-bit range is rejected by the statement. *)

Module Deployed.

(** The time zone of the Node process: the wall clock (in milliseconds)
    shown at an instant, and the instant [new Date(year, month, ...)] makes
    of a wall clock.  No law is assumed of the two. *)
Class TimeZone := {
  to_local : Z -> Z;
  from_local : Z -> Z
}.

(** The instants of the clock reads of one login, in program order. *)
Record LoginClock := {
  lock_check : Z;      (* new Date(), line 92 *)
  lock_start : Z;      (* Date.now(), line 109 *)
  db_now : Z;          (* NOW() of the statements, lines 77-137 *)
  access_iat : Z;      (* Date.now() inside jwt.sign of the access token, line 131 *)
  refresh_iat : Z;     (* Date.now() inside jwt.sign of the refresh token, line 131 *)
  expiry_base : Z      (* Date.now(), line 134 *)
}.

(** All clock reads of a request at one instant. *)
Definition at_instant (now : Z) : LoginClock :=
  {| lock_check := now; lock_start := now; db_now := now;
     access_iat := now; refresh_iat := now; expiry_base := now |}.

Definition INT4_MIN : Z := -2147483648.
Definition INT4_MAX : Z := 2147483647.

(** The statement is rejected with "value out of range for type integer". *)
Definition out_of_range (q : Query) : bool :=
  match q with
  | UpdateFailedAttempts attempts _ _ =>
      (attempts <? INT4_MIN)%Z || (attempts >? INT4_MAX)%Z
  | _ => false
  end.

Section Driver.
Context {zone : TimeZone}.

(** A statement with its [Date] parameters as the columns store them. *)
Definition written (q : Query) : Query :=
  match q with
  | UpdateRefreshToken token expires i =>
      UpdateRefreshToken token (to_local expires) i
  | UpdateFailedAttempts attempts lockUntil i =>
      UpdateFailedAttempts attempts (option_map to_local lockUntil) i
  | _ => q
  end.

(** A result row with the timestamp columns the driver wrote parsed back. *)
Definition parsed (row : User) : User :=
  {| id := id row; users.email := users.email row;
     password_hash := password_hash row;
     refresh_token := refresh_token row;
     refresh_token_expires := option_map from_local (refresh_token_expires row);
     failed_login_attempts := failed_login_attempts row;
     account_locked_until := option_map from_local (account_locked_until row);
     last_login := last_login row; created_at := created_at row;
     updated_at := updated_at row |}.

(** [await pool.query(text, params)] through the driver. *)
Definition driver_query (now : Z) (q : Query) : M (list User) :=
  fun w =>
    if out_of_range q
    then (Throw (Error "value out of range for type integer"),
          {| db := db w; faults := tl (faults w);
             trace := EvQuery (written q) :: trace w |})
    else match pool_query now (written q) w with
         | (Normal result, w') => (Normal (map parsed result), w')
         | (Throw e, w') => (Throw e, w')
         end.
End Driver.

Section Login.
Context {zone : TimeZone} {mac : jwt.HMAC} {hasher : bcrypt.Bcrypt} {secrets : Secrets}.
Local Open Scope js_scope.

(* Login user *)
Definition login (clock : LoginClock) (email password : string) : M Response :=
  try_catch
    ((* Get user *)
     result <- driver_query (db_now clock) (SelectCredentialsByEmail email) ;;
     match result with
     | [] => ret InvalidCredentials
     | user :: _ =>
         (* Check if account is locked *)
         if match account_locked_until user with
            | Some lockedUntil => (lock_check clock <? lockedUntil)%Z
            | None => false
            end
         then ret AccountLocked
         else
           (* Verify password *)
           isValidPassword <- bcrypt_compare password (password_hash user) ;;
           if negb isValidPassword
           then
             (* Increment failed attempts *)
             let newFailedAttempts := failed_login_attempts user + 1 in
             (* Lock account after 5 failed attempts for 15 minutes *)
             let lockUntil := if (newFailedAttempts >=? 5)%Z
                              then Some (lock_start clock + 15 * 60 * 1000)
                              else None in
             await driver_query (db_now clock)
               (UpdateFailedAttempts newFailedAttempts lockUntil (id user)) ;;
             ret InvalidCredentials
           else
             (* Successful login - reset failed attempts *)
             await driver_query (db_now clock) (ResetFailedAttempts (id user)) ;;
             (* Generate tokens *)
             let tokens :=
               {| TokenManager.accessToken :=
                    TokenManager.generateAccessToken (access_iat clock)
                                                     (id user) (users.email user);
                  TokenManager.refreshToken :=
                    TokenManager.generateRefreshToken (refresh_iat clock) (id user);
                  TokenManager.expiresIn := 900 |} in
             (* Store refresh token *)
             let refreshTokenExpiry := expiry_base clock + 7 * 24 * 60 * 60 * 1000 in
             await driver_query (db_now clock)
               (UpdateRefreshToken (TokenManager.refreshToken tokens)
                                   refreshTokenExpiry (id user)) ;;
             ret {| status := 200; success := true;
                    message := Some "Login successful";
                    data := Some (LoggedInUser (id user) (users.email user) tokens) |}
     end)
    (fun error => ret (failure 500 "Login failed")).
End Login.

(** The instants of the clock reads of one refresh, in program order. *)
Record RefreshClock := {
  verify_at : Z;           (* Date.now() inside jwt.verify, line 169 *)
  refresh_db_now : Z;      (* the clock of the database, lines 172-205 *)
  expiry_check : Z;        (* new Date(), line 189 *)
  new_access_iat : Z;      (* Date.now() inside jwt.sign of the access token, line 198 *)
  new_refresh_iat : Z;     (* Date.now() inside jwt.sign of the refresh token, line 198 *)
  new_expiry_base : Z      (* Date.now(), line 201 *)
}.

Definition refresh_at_instant (now : Z) : RefreshClock :=
  {| verify_at := now; refresh_db_now := now; expiry_check := now;
     new_access_iat := now; new_refresh_iat := now; new_expiry_base := now |}.

Section Refresh.
Context {zone : TimeZone} {mac : jwt.HMAC} {secrets : Secrets}.
Local Open Scope js_scope.

(* Refresh access token *)
Definition refreshToken (clock : RefreshClock) (refreshToken : jwt.Token) : M Response :=
  try_catch
    ((* Verify refresh token *)
     decoded <- lift (TokenManager.verifyRefreshToken (verify_at clock) refreshToken) ;;
     (* Check if refresh token exists in database and is not expired *)
     result <- driver_query (refresh_db_now clock)
                 (SelectSessionById (jwt.userId decoded)) ;;
     match result with
     | [] => ret (failure 401 "Invalid refresh token")
     | user :: _ =>
         (* Verify token matches and is not expired *)
         if negb (option_eqb jwt.token_eqb (refresh_token user) (Some refreshToken))
            || (expiry_check clock >? Date (refresh_token_expires user))%Z
         then ret (failure 401 "Invalid or expired refresh token")
         else
           (* Generate new token pair (refresh token rotation) *)
           let newTokens :=
             {| TokenManager.accessToken :=
                  TokenManager.generateAccessToken (new_access_iat clock)
                                                   (id user) (users.email user);
                TokenManager.refreshToken :=
                  TokenManager.generateRefreshToken (new_refresh_iat clock) (id user);
                TokenManager.expiresIn := 900 |} in
           (* Update refresh token in database *)
           let newRefreshTokenExpiry :=
             new_expiry_base clock + 7 * 24 * 60 * 60 * 1000 in
           await driver_query (refresh_db_now clock)
             (UpdateRefreshToken (TokenManager.refreshToken newTokens)
                                 newRefreshTokenExpiry (id user)) ;;
           ret {| status := 200; success := true; message := None;
                  data := Some (NewTokens newTokens) |}
     end)
    (fun error => ret (failure 401 "Token refresh failed")).
End Refresh.

End Deployed.

(** A zone without clock changes, taken as UTC: timestamps read back as
    written. *)
Definition utc : Deployed.TimeZone :=
  {| Deployed.to_local := fun t => t; Deployed.from_local := fun w => w |}.

(** Central European time around the end of summer time 2024: the offset is
    +2 h before 2024-10-27T01:00:00Z (instant 1729990800000) and +1 h from
    then on; a wall clock of the repeated hour is taken as its first
    occurrence, as [new Date(year, month, ...)] does. *)
Definition europe_berlin_autumn_2024 : Deployed.TimeZone :=
  {| Deployed.to_local :=
       fun t => if (t <? 1729990800000)%Z then t + 7200000 else t + 3600000;
     Deployed.from_local :=
       fun w => if (w <? 1729990800000 + 7200000)%Z then w - 7200000 else w - 3600000 |}.

(** ** Observations of the store *)

(** [rows[0]] of a SELECT by email, and of a SELECT by id. *)
Definition find_by_email (e : string) (d : Database) : option User :=
  hd_error (filter (where_email e) (rows d)).

Definition find_by_id (i : Z) (d : Database) : option User :=
  hd_error (filter (where_id i) (rows d)).

(** ** A reference configuration, to run the handlers on concrete inputs *)

(** A stand-in MAC: the secret followed by the token type. *)
Definition tagging_mac : jwt.HMAC :=
  fun secret payload => secret ++ ":" ++ jwt.type payload.

(** A stand-in password hash: the salt is ignored and the hash is the
    password; [compare] is string equality. *)
Definition plain_bcrypt : bcrypt.Bcrypt :=
  {| bcrypt.hash := fun password _ _ => password;
     bcrypt.compare := String.eqb |}.

Definition test_secrets : Secrets :=
  {| JWT_SECRET := "access-secret"; JWT_REFRESH_SECRET := "refresh-secret" |}.

(** One stored account, never used, with password ["Secur3!Pass"]. *)
Definition alice : User :=
  new_user 1 "a@x.com" "Secur3!Pass" 0.

Definition alice_db : Database := {| rows := [alice]; users_id_seq := 1 |}.

(** * Specification vocabulary

    Names for the rows, statements and outcomes the properties speak about. *)

Section Specification.
Context {mac : jwt.HMAC} {hasher : bcrypt.Bcrypt} {secrets : Secrets}.

(** The row a wrong password leaves: the counter and the lock are written
    together. *)
Definition after_failure (now : Z) (u : User) : User :=
  set_lockout (failed_login_attempts u + 1)
              (if (failed_login_attempts u + 1 >=? 5)%Z
               then Some (now + 15 * 60 * 1000) else None)
              (last_login u) u.

Definition lock_expired (now : Z) (u : User) : Prop :=
  forall lockedUntil, account_locked_until u = Some lockedUntil -> lockedUntil <= now.

(** The table after one statement. *)
Definition committed (now : Z) (q : Query) (d : Database) : Database :=
  snd (exec now q d).

Definition locked_at (now : Z) (u : User) : bool :=
  match account_locked_until u with
  | Some lockedUntil => (now <? lockedUntil)%Z
  | None => false
  end.

Definition lockUntil_for (now : Z) (u : User) : option Z :=
  if (failed_login_attempts u + 1 >=? 5)%Z then Some (now + 15 * 60 * 1000) else None.

Definition login_success (now : Z) (u : User) : Response :=
  {| status := 200; success := true; message := Some "Login successful";
     data := Some (LoggedInUser (id u) (users.email u)
                     (TokenManager.generateTokenPair now (id u) (users.email u))) |}.

(** All the ways a login can end, with the table it leaves. *)
Inductive login_outcome (now : Z) (e p : string) (d : Database)
  : Response -> Database -> Prop :=
| login_select_failed :
    login_outcome now e p d (failure 500 "Login failed") d
| login_no_account :
    find_by_email e d = None ->
    login_outcome now e p d InvalidCredentials d
| login_refused_locked u :
    find_by_email e d = Some u -> locked_at now u = true ->
    login_outcome now e p d AccountLocked d
| login_mismatch u :
    find_by_email e d = Some u -> locked_at now u = false ->
    bcrypt.compare p (password_hash u) = false ->
    login_outcome now e p d InvalidCredentials
      (committed now (UpdateFailedAttempts (failed_login_attempts u + 1)
                        (lockUntil_for now u) (id u)) d)
| login_mismatch_write_failed u :
    find_by_email e d = Some u -> locked_at now u = false ->
    bcrypt.compare p (password_hash u) = false ->
    login_outcome now e p d (failure 500 "Login failed") d
| login_reset_failed u :
    find_by_email e d = Some u -> locked_at now u = false ->
    bcrypt.compare p (password_hash u) = true ->
    login_outcome now e p d (failure 500 "Login failed") d
| login_session_write_failed u :
    find_by_email e d = Some u -> locked_at now u = false ->
    bcrypt.compare p (password_hash u) = true ->
    login_outcome now e p d (failure 500 "Login failed")
      (committed now (ResetFailedAttempts (id u)) d)
| login_ok u :
    find_by_email e d = Some u -> locked_at now u = false ->
    bcrypt.compare p (password_hash u) = true ->
    login_outcome now e p d (login_success now u)
      (committed now
         (UpdateRefreshToken
            (TokenManager.generateRefreshToken now (id u))
            (now + 7 * 24 * 60 * 60 * 1000) (id u))
         (committed now (ResetFailedAttempts (id u)) d)).

Definition run_statements (now : Z) (qs : list Query) (d : Database) : Database :=
  fold_left (fun d' q => committed now q d') qs d.

(** [issues now P m]: whatever the pending failures, the table [m] leaves is
    the table it found after some statements that all satisfy [P], each
    committed whole. *)
Definition issues (now : Z) (P : Query -> Prop) {A} (m : M A) : Prop :=
  forall w, exists qs, Forall P qs /\ db (snd (m w)) = run_statements now qs (db w).

(** The statements the controller can send at instant [now]: a write of the
    failure counter always carries the lock that goes with that counter, and
    a stored refresh token is always one minted at [now] for the row's id,
    with the 7-day expiry. *)
Definition well_formed (now : Z) (q : Query) : Prop :=
  match q with
  | UpdateFailedAttempts attempts lockUntil _ =>
      lockUntil = if (attempts >=? 5)%Z then Some (now + 15 * 60 * 1000) else None
  | UpdateRefreshToken token expires i =>
      token = TokenManager.generateRefreshToken now i
      /\ expires = now + 7 * 24 * 60 * 60 * 1000
  | _ => True
  end.

(** No row of user [i] stores the token [T]. *)
Definition never_stores (T : jwt.Token) (i : Z) (d : Database) : Prop :=
  Forall (fun u => id u = i -> refresh_token u <> Some T) (rows d).

(** The table after a script of requests, each with its instant and its
    pending persistence failures. *)
Definition serve (steps : list (Z * Request * list bool)) (d : Database) : Database :=
  fold_left (fun d' step =>
               store (route (fst (fst step)) (snd (fst step))
                            {| db := d'; faults := snd step; trace := [] |}))
            steps d.


Definition refresh_success (now : Z) (u : User) : Response :=
  {| status := 200; success := true; message := None;
     data := Some (NewTokens (TokenManager.generateTokenPair now (id u) (users.email u))) |}.

(** A refresh either is refused as an invalid token and writes nothing, or
    presented the stored token of the token's subject before the stored
    expiry, and overwrites it with a new one. *)
Inductive refresh_outcome (now : Z) (token : jwt.Token) (d : Database)
  : Response -> Database -> Prop :=
| refresh_refused response :
    InvalidToken response ->
    refresh_outcome now token d response d
| refresh_rotated decoded signature u :
    token = jwt.JWT decoded signature ->
    find_by_id (jwt.userId decoded) d = Some u ->
    refresh_token u = Some token ->
    now <= Date (refresh_token_expires u) ->
    refresh_outcome now token d (refresh_success now u)
      (committed now
         (UpdateRefreshToken (TokenManager.generateRefreshToken now (id u))
                             (now + 7 * 24 * 60 * 60 * 1000) (id u)) d).

Definition logout_success : Response :=
  {| status := 200; success := true; message := Some "Logout successful"; data := None |}.

(** The claim that an operation is all-or-nothing: either it answers success
    with every write of the failure-free run committed, or it answers an
    error and the table is the one from before the call. *)
Definition no_partial_state (now : Z) (req : Request) (w : World) : Prop :=
  let r := route now req w in
  (success (answer r) = true
   /\ store r = store (route now req {| db := db w; faults := []; trace := trace w |}))
  \/ (success (answer r) = false /\ store r = db w).

Definition after_requests (now : Z) (reqs : list Request) (d : Database) : Database :=
  fold_left (fun d' req => store (route now req (healthy d'))) reqs d.

(** A stored session is either absent (token and expiry both [NULL]) or a
    refresh token minted for the row's own id, with the expiry 7 days after
    the minting instant. *)
Definition session_minted (u : User) : Prop :=
  (refresh_token u = None /\ refresh_token_expires u = None)
  \/ exists issued,
       refresh_token u = Some (TokenManager.generateRefreshToken issued (id u))
       /\ refresh_token_expires u = Some (issued + 7 * 24 * 60 * 60 * 1000).

(** What holds of every table the service builds. *)
Definition consistent (d : Database) : Prop :=
  NoDup (map users.email (rows d))
  /\ NoDup (map id (rows d))
  /\ 0 <= users_id_seq d
  /\ Forall (fun u => 1 <= id u <= users_id_seq d) (rows d)
  /\ Forall session_minted (rows d).

(** The columns no statement of the controller ever writes after the INSERT. *)
Definition identity (u : User) : Z * string * string * Z * Z :=
  (id u, users.email u, password_hash u, created_at u, updated_at u).

(** The columns of the lockout and of the login stamp. *)
Definition lockout (u : User) : Z * option Z * option Z :=
  (failed_login_attempts u, account_locked_until u, last_login u).

(** The columns of the session. *)
Definition session (u : User) : option jwt.Token * option Z :=
  (refresh_token u, refresh_token_expires u).

(** Statements that read, or write the session columns only. *)
Definition session_statement (q : Query) : Prop :=
  match q with
  | InsertUser _ _ | UpdateFailedAttempts _ _ _ | ResetFailedAttempts _ => False
  | _ => True
  end.

(** What [escapeHtml] writes for one character. *)
Definition escape_char (a : ascii) : string :=
  if Ascii.eqb a "&" then "&amp;"
  else if Ascii.eqb a "<" then "&lt;"
  else if Ascii.eqb a ">" then "&gt;"
  else if Ascii.eqb a "034" then "&quot;"
  else if Ascii.eqb a "'" then "&#x27;"
  else if Ascii.eqb a "/" then "&#x2F;"
  else String a EmptyString.

(** One pass over a string, writing [f a] for every character [a]. *)
Fixpoint flat_map_string (f : ascii -> string) (s : string) : string :=
  match s with
  | EmptyString => EmptyString
  | String a rest => f a ++ flat_map_string f rest
  end.

(** The string [s] has an occurrence of the character [c]. *)
Fixpoint occurs (c : ascii) (s : string) : bool :=
  match s with
  | EmptyString => false
  | String a rest => Ascii.eqb a c || occurs c rest
  end.

(** The six characters [escapeHtml] rewrites. *)
Definition special (a : ascii) : bool :=
  Ascii.eqb a "&" || Ascii.eqb a "<" || Ascii.eqb a ">"
  || Ascii.eqb a "034" || Ascii.eqb a "'" || Ascii.eqb a "/".

Fixpoint has_special (s : string) : bool :=
  match s with
  | EmptyString => false
  | String a rest => special a || has_special rest
  end.

End Specification.

(** ** Concrete tables for the reference configuration *)

Section ReferenceData.
#[local] Existing Instance tagging_mac.
#[local] Existing Instance test_secrets.

(** Alice locked until instant 900000 after five failures. *)
Definition locked_alice : User := set_lockout 5 (Some 900000) None alice.

Definition locked_alice_db : Database := {| rows := [locked_alice]; users_id_seq := 1 |}.

(** Alice registered at instant 0, then five wrong passwords at instant 0. *)
Definition five_failures : list Request :=
  [PostRegister "salt" "a@x.com" "Secur3!Pass";
   PostLogin "a@x.com" "wrong"; PostLogin "a@x.com" "wrong";
   PostLogin "a@x.com" "wrong"; PostLogin "a@x.com" "wrong";
   PostLogin "a@x.com" "wrong"].

(** Alice with the refresh token issued to her at instant 0. *)
Definition alice_session_db : Database :=
  {| rows := [set_session (Some (TokenManager.generateRefreshToken 0 1))
                          (Some 604800000) alice];
     users_id_seq := 1 |}.

End ReferenceData.

(** * Properties *)

Unset Implicit Arguments.

(** ** Tokens: equality *)

Lemma option_string_eqb_eq (x y : option string) :
  option_eqb String.eqb x y = true <-> x = y.
Proof.
  destruct x as [a|], y as [b|]; simpl; try (split; congruence).
  rewrite String.eqb_eq. split; congruence.
Qed.

Lemma claims_eqb_eq (a b : jwt.Claims) : jwt.claims_eqb a b = true <-> a = b.
Proof.
  destruct a, b; unfold jwt.claims_eqb; simpl.
  rewrite !andb_true_iff, !Z.eqb_eq, !String.eqb_eq, option_string_eqb_eq.
  split; [intros [[[[[-> ->] ->] ->] ->] ->]; reflexivity | intros H; inversion H; tauto].
Qed.

Lemma token_eqb_eq (a b : jwt.Token) : jwt.token_eqb a b = true <-> a = b.
Proof.
  destruct a as [ca sa|ra], b as [cb sb|rb]; simpl; try (split; congruence).
  - rewrite andb_true_iff, claims_eqb_eq, String.eqb_eq. split.
    + intros [-> ->]; reflexivity.
    + intros H; inversion H; tauto.
  - rewrite String.eqb_eq. split; congruence.
Qed.

Lemma token_eqb_refl (a : jwt.Token) : jwt.token_eqb a a = true.
Proof. apply token_eqb_eq; reflexivity. Qed.

Lemma stored_token_eqb_eq (stored : option jwt.Token) (presented : jwt.Token) :
  option_eqb jwt.token_eqb stored (Some presented) = true <-> stored = Some presented.
Proof.
  destruct stored as [t|]; simpl; [|split; congruence].
  rewrite token_eqb_eq. split; congruence.
Qed.

(** ** The table: SELECT after UPDATE *)

Lemma filter_update_where_id (p : User -> bool) (i : Z) (f : User -> User) rows0 :
  (forall u, p (f u) = p u) ->
  filter p (update_where_id i f rows0)
  = update_where_id i f (filter p rows0).
Proof.
  intros Hp. unfold update_where_id.
  induction rows0 as [|u rest IH]; simpl; [reflexivity|].
  assert (Hu : p (if where_id i u then f u else u) = p u)
    by (destruct (where_id i u); auto).
  rewrite Hu. destruct (p u); simpl; rewrite IH; reflexivity.
Qed.

Lemma hd_error_update_where_id i f rows0 :
  hd_error (update_where_id i f rows0)
  = option_map (fun u => if where_id i u then f u else u) (hd_error rows0).
Proof. destruct rows0; reflexivity. Qed.

Lemma where_id_self (u : User) : where_id (id u) u = true.
Proof. apply Z.eqb_refl. Qed.

(** After an UPDATE by the id of the account found under [e], a SELECT by
    [e] finds the rewritten row, when the rewrite keeps the email. *)
Lemma find_by_email_update e d u f seq :
  (forall r, users.email (f r) = users.email r) ->
  find_by_email e d = Some u ->
  find_by_email e {| rows := update_where_id (id u) f (rows d); users_id_seq := seq |}
  = Some (f u).
Proof.
  unfold find_by_email; simpl; intros Hf Hu.
  rewrite filter_update_where_id
    by (intros r; unfold where_email; rewrite Hf; reflexivity).
  rewrite hd_error_update_where_id, Hu; simpl.
  rewrite where_id_self; reflexivity.
Qed.

Lemma find_by_id_update i d u f seq :
  (forall r, id (f r) = id r) ->
  find_by_id i d = Some u ->
  find_by_id i {| rows := update_where_id (id u) f (rows d); users_id_seq := seq |}
  = Some (f u).
Proof.
  unfold find_by_id; simpl; intros Hf Hu.
  rewrite filter_update_where_id
    by (intros r; unfold where_id; rewrite Hf; reflexivity).
  rewrite hd_error_update_where_id, Hu; simpl.
  rewrite where_id_self; reflexivity.
Qed.

Lemma find_by_email_rows e d u :
  find_by_email e d = Some u ->
  exists rest, filter (where_email e) (rows d) = u :: rest.
Proof.
  unfold find_by_email. destruct (filter (where_email e) (rows d)) as [|v rest]; simpl.
  - discriminate.
  - intros [= ->]. exists rest; reflexivity.
Qed.

Lemma find_by_id_rows i d u :
  find_by_id i d = Some u ->
  exists rest, filter (where_id i) (rows d) = u :: rest.
Proof.
  unfold find_by_id. destruct (filter (where_id i) (rows d)) as [|v rest]; simpl.
  - discriminate.
  - intros [= ->]. exists rest; reflexivity.
Qed.

Lemma find_by_id_id i d u : find_by_id i d = Some u -> id u = i.
Proof.
  intros H. destruct (find_by_id_rows _ _ _ H) as [rest Hrest].
  assert (Hin : In u (filter (where_id i) (rows d))) by (rewrite Hrest; left; reflexivity).
  apply filter_In in Hin. destruct Hin as [_ Hid]. apply Z.eqb_eq in Hid. exact Hid.
Qed.

Section Properties.
Context {mac : jwt.HMAC} {hasher : bcrypt.Bcrypt} {secrets : Secrets}.

(** ** Login: the three ways past the SELECT *)

Lemma lock_expired_test now u :
  lock_expired now u ->
  match account_locked_until u with
  | Some lockedUntil => (now <? lockedUntil)%Z
  | None => false
  end = false.
Proof.
  unfold lock_expired; intros H. destruct (account_locked_until u) as [l|]; [|reflexivity].
  apply Z.ltb_ge. apply H; reflexivity.
Qed.

Lemma login_unknown_email now e p d calls :
  find_by_email e d = None ->
  AuthController.login now e p {| db := d; faults := []; trace := calls |}
  = (Normal InvalidCredentials,
     {| db := d; faults := [];
        trace := EvQuery (SelectCredentialsByEmail e) :: calls |}).
Proof.
  unfold find_by_email; intros H.
  unfold AuthController.login, try_catch, bind, pool_query; simpl.
  destruct (filter (where_email e) (rows d)); [reflexivity | discriminate].
Qed.

Lemma login_locked now e p d calls u lockedUntil :
  find_by_email e d = Some u ->
  account_locked_until u = Some lockedUntil ->
  now < lockedUntil ->
  AuthController.login now e p {| db := d; faults := []; trace := calls |}
  = (Normal AccountLocked,
     {| db := d; faults := [];
        trace := EvQuery (SelectCredentialsByEmail e) :: calls |}).
Proof.
  intros Hu Hlock Hnow. destruct (find_by_email_rows _ _ _ Hu) as [rest Hrest].
  unfold AuthController.login, try_catch, bind, pool_query; simpl.
  rewrite Hrest, Hlock. apply Z.ltb_lt in Hnow. rewrite Hnow. reflexivity.
Qed.

Lemma login_wrong_password now e p d calls u :
  find_by_email e d = Some u ->
  lock_expired now u ->
  bcrypt.compare p (password_hash u) = false ->
  AuthController.login now e p {| db := d; faults := []; trace := calls |}
  = (Normal InvalidCredentials,
     {| db := {| rows := update_where_id (id u)
                           (fun r => set_lockout (failed_login_attempts u + 1)
                                       (if (failed_login_attempts u + 1 >=? 5)%Z
                                        then Some (now + 15 * 60 * 1000) else None)
                                       (last_login r) r)
                           (rows d);
                 users_id_seq := users_id_seq d |};
        faults := [];
        trace := EvQuery (UpdateFailedAttempts (failed_login_attempts u + 1)
                            (if (failed_login_attempts u + 1 >=? 5)%Z
                             then Some (now + 15 * 60 * 1000) else None) (id u))
                 :: EvBcryptCompare p (password_hash u)
                 :: EvQuery (SelectCredentialsByEmail e) :: calls |}).
Proof.
  intros Hu Hlock Hp. destruct (find_by_email_rows _ _ _ Hu) as [rest Hrest].
  unfold AuthController.login, try_catch, bind, pool_query, bcrypt_compare; simpl.
  rewrite Hrest, (lock_expired_test now u Hlock); simpl. rewrite Hp; simpl. reflexivity.
Qed.

Lemma login_wrong_password_account now e p d calls u :
  find_by_email e d = Some u ->
  lock_expired now u ->
  bcrypt.compare p (password_hash u) = false ->
  let r := AuthController.login now e p {| db := d; faults := []; trace := calls |} in
  answer r = InvalidCredentials
  /\ faults (snd r) = []
  /\ find_by_email e (store r) = Some (after_failure now u).
Proof.
  intros Hu Hlock Hp r. subst r.
  rewrite (login_wrong_password now e p d calls u Hu Hlock Hp).
  unfold answer, store; simpl. repeat split.
  apply (find_by_email_update e d u
           (fun r => set_lockout (failed_login_attempts u + 1)
                       (if (failed_login_attempts u + 1 >=? 5)%Z
                        then Some (now + 15 * 60 * 1000) else None)
                       (last_login r) r) (users_id_seq d)); [reflexivity | exact Hu].
Qed.

Lemma login_wrong_step now e p w u :
  faults w = [] ->
  find_by_email e (db w) = Some u ->
  lock_expired now u ->
  bcrypt.compare p (password_hash u) = false ->
  let r := AuthController.login now e p w in
  answer r = InvalidCredentials
  /\ faults (snd r) = []
  /\ find_by_email e (store r) = Some (after_failure now u).
Proof.
  destruct w as [d pending calls]; simpl; intros -> Hu Hlock Hp.
  apply login_wrong_password_account; assumption.
Qed.

Lemma login_locked_step now e p w u lockedUntil :
  faults w = [] ->
  find_by_email e (db w) = Some u ->
  account_locked_until u = Some lockedUntil ->
  now < lockedUntil ->
  let r := AuthController.login now e p w in
  answer r = AccountLocked /\ store r = db w /\ faults (snd r) = [].
Proof.
  destruct w as [d pending calls]; simpl; intros -> Hu Hlock Hnow.
  rewrite (login_locked now e p d calls u lockedUntil Hu Hlock Hnow).
  repeat split.
Qed.

Lemma after_failure_below_threshold now u :
  failed_login_attempts u + 1 < 5 ->
  account_locked_until (after_failure now u) = None.
Proof.
  intros H. unfold after_failure; simpl.
  destruct (Z.geb_spec (failed_login_attempts u + 1) 5); [lia | reflexivity].
Qed.

Lemma after_failure_at_threshold now u :
  5 <= failed_login_attempts u + 1 ->
  account_locked_until (after_failure now u) = Some (now + 15 * 60 * 1000).
Proof.
  intros H. unfold after_failure; simpl.
  destruct (Z.geb_spec (failed_login_attempts u + 1) 5); [reflexivity | lia].
Qed.

Lemma lock_expired_unlocked now u :
  account_locked_until u = None -> lock_expired now u.
Proof. intros H l Hl. congruence. Qed.

(** ** Account lockout *)

(** The lockout run when the stored lock reads back as the instant written
    (the convention of [exec]).  On an account with no failure counted and no
    lock in force, five logins in a row with wrong passwords all fail [InvalidCredentials]; the
    first four leave no lock, the fifth stores
    [accountLockedUntil = now + 15 min]; and a sixth login before that instant
    fails [AccountLocked] whatever the password, the correct one included. *)
Theorem five_failed_logins_lock_account
    (d : Database) (e : string) (u : User)
    (p1 p2 p3 p4 p5 : string) (t1 t2 t3 t4 t5 : Z) :
  find_by_email e d = Some u ->
  failed_login_attempts u = 0 ->
  lock_expired t1 u ->
  Forall (fun p => bcrypt.compare p (password_hash u) = false) [p1; p2; p3; p4; p5] ->
  let r1 := AuthController.login t1 e p1 (healthy d) in
  let r2 := AuthController.login t2 e p2 (snd r1) in
  let r3 := AuthController.login t3 e p3 (snd r2) in
  let r4 := AuthController.login t4 e p4 (snd r3) in
  let r5 := AuthController.login t5 e p5 (snd r4) in
  map answer [r1; r2; r3; r4; r5]
  = [InvalidCredentials; InvalidCredentials; InvalidCredentials;
     InvalidCredentials; InvalidCredentials]
  /\ (forall r, In r [r1; r2; r3; r4] ->
      exists stored, find_by_email e (store r) = Some stored
                     /\ account_locked_until stored = None)
  /\ (exists stored, find_by_email e (store r5) = Some stored
                     /\ failed_login_attempts stored = 5
                     /\ account_locked_until stored = Some (t5 + 15 * 60 * 1000))
  /\ (forall t6 p6, t6 < t5 + 15 * 60 * 1000 ->
      answer (AuthController.login t6 e p6 (snd r5)) = AccountLocked).
Proof.
  intros Hu H0 Hlock Hwrong r1 r2 r3 r4 r5.
  repeat match goal with
         | H : Forall _ (_ :: _) |- _ => inversion H; subst; clear H
         end.
  destruct (login_wrong_step t1 e p1 (healthy d) u eq_refl Hu Hlock)
    as (A1 & F1 & U1); [assumption|]. fold r1 in A1, F1, U1.
  set (u1 := after_failure t1 u) in *.
  assert (C1 : failed_login_attempts u1 = 1) by (subst u1; simpl; lia).
  assert (L1 : account_locked_until u1 = None)
    by (apply after_failure_below_threshold; lia).
  destruct (login_wrong_step t2 e p2 (snd r1) u1 F1 U1
              (lock_expired_unlocked t2 u1 L1)) as (A2 & F2 & U2); [assumption|].
  fold r2 in A2, F2, U2. set (u2 := after_failure t2 u1) in *.
  assert (C2 : failed_login_attempts u2 = 2) by (subst u2; simpl; lia).
  assert (L2 : account_locked_until u2 = None)
    by (apply after_failure_below_threshold; lia).
  destruct (login_wrong_step t3 e p3 (snd r2) u2 F2 U2
              (lock_expired_unlocked t3 u2 L2)) as (A3 & F3 & U3); [assumption|].
  fold r3 in A3, F3, U3. set (u3 := after_failure t3 u2) in *.
  assert (C3 : failed_login_attempts u3 = 3) by (subst u3; simpl; lia).
  assert (L3 : account_locked_until u3 = None)
    by (apply after_failure_below_threshold; lia).
  destruct (login_wrong_step t4 e p4 (snd r3) u3 F3 U3
              (lock_expired_unlocked t4 u3 L3)) as (A4 & F4 & U4); [assumption|].
  fold r4 in A4, F4, U4. set (u4 := after_failure t4 u3) in *.
  assert (C4 : failed_login_attempts u4 = 4) by (subst u4; simpl; lia).
  assert (L4 : account_locked_until u4 = None)
    by (apply after_failure_below_threshold; lia).
  destruct (login_wrong_step t5 e p5 (snd r4) u4 F4 U4
              (lock_expired_unlocked t5 u4 L4)) as (A5 & F5 & U5); [assumption|].
  fold r5 in A5, F5, U5. set (u5 := after_failure t5 u4) in *.
  assert (C5 : failed_login_attempts u5 = 5) by (subst u5; simpl; lia).
  assert (L5 : account_locked_until u5 = Some (t5 + 15 * 60 * 1000))
    by (apply after_failure_at_threshold; lia).
  split; [simpl; congruence|].
  split.
  { intros r [<-|[<-|[<-|[<-|[]]]]]; eauto. }
  split; [eauto|].
  intros t6 p6 Ht6.
  apply (login_locked_step t6 e p6 (snd r5) u5 _ F5 U5 L5 Ht6).
Qed.

(** ** Login under persistence failures: every outcome *)

Lemma login_outcomes now e p w :
  let r := AuthController.login now e p w in
  login_outcome now e p (db w) (answer r) (store r).
Proof.
  destruct w as [d pending calls]; simpl.
  unfold AuthController.login, try_catch, bind, pool_query, bcrypt_compare, answer, store.
  simpl.
  destruct pending as [|[|] pending]; simpl; try apply login_select_failed.
  all: destruct (filter (where_email e) (rows d)) as [|u rest] eqn:Hrows; simpl;
    [ apply login_no_account; unfold find_by_email; rewrite Hrows; reflexivity | ].
  all: assert (Hu : find_by_email e d = Some u)
    by (unfold find_by_email; rewrite Hrows; reflexivity).
  all: fold (locked_at now u); destruct (locked_at now u) eqn:Hlock; simpl;
    [ eapply login_refused_locked; eassumption | ].
  all: destruct (bcrypt.compare p (password_hash u)) eqn:Hp; simpl.
  all: repeat match goal with
         | |- context [match ?l with [] => _ | _ :: _ => _ end] =>
             match type of l with list bool => destruct l as [|[|] ?] end; simpl
         end.
  all: try (eapply login_ok; eassumption).
  all: try (eapply login_session_write_failed; eassumption).
  all: try (eapply login_reset_failed; eassumption).
  all: try (eapply login_mismatch; eassumption).
  all: try (eapply login_mismatch_write_failed; eassumption).
Qed.

(** ** What a handler writes: a sequence of whole statements *)

Lemma run_statements_app now qs1 qs2 d :
  run_statements now (qs1 ++ qs2)%list d = run_statements now qs2 (run_statements now qs1 d).
Proof. apply fold_left_app. Qed.

Lemma issues_ret now P {A} (a : A) : issues now P (ret a).
Proof. intros w. exists []. split; [constructor | reflexivity]. Qed.

Lemma issues_lift now P {A} (c : Completion A) : issues now P (lift c).
Proof. intros w. exists []. split; [constructor | reflexivity]. Qed.

Lemma issues_bind now P {A B} (m : M A) (k : A -> M B) :
  issues now P m -> (forall a, issues now P (k a)) -> issues now P (bind m k).
Proof.
  intros Hm Hk w. unfold bind.
  destruct (Hm w) as (qs1 & HP1 & E1).
  destruct (m w) as [[a|ex] w1]; simpl in E1.
  - destruct (Hk a w1) as (qs2 & HP2 & E2).
    exists (qs1 ++ qs2)%list. split; [apply Forall_app; split; assumption|].
    rewrite run_statements_app, <- E1. exact E2.
  - exists qs1. split; assumption.
Qed.

Lemma issues_try_catch now P {A} (body : M A) (handler : Exception -> M A) :
  issues now P body -> (forall e, issues now P (handler e)) ->
  issues now P (try_catch body handler).
Proof.
  intros Hm Hk w. unfold try_catch.
  destruct (Hm w) as (qs1 & HP1 & E1).
  destruct (body w) as [[a|ex] w1]; simpl in E1.
  - exists qs1. split; assumption.
  - destruct (Hk ex w1) as (qs2 & HP2 & E2).
    exists (qs1 ++ qs2)%list. split; [apply Forall_app; split; assumption|].
    rewrite run_statements_app, <- E1. exact E2.
Qed.

Lemma issues_pool_query now (P : Query -> Prop) q :
  P q -> issues now P (pool_query now q).
Proof.
  intros HP [d pending calls]. unfold pool_query; simpl.
  destruct pending as [|[|] pending].
  - exists [q]. split; [repeat constructor; exact HP|].
    simpl. unfold committed. destruct (exec now q d); reflexivity.
  - exists []. split; [constructor | reflexivity].
  - exists [q]. split; [repeat constructor; exact HP|].
    simpl. unfold committed. destruct (exec now q d); reflexivity.
Qed.

Lemma issues_bcrypt_hash now P password rounds salt :
  issues now P (bcrypt_hash password rounds salt).
Proof. intros w. exists []. split; [constructor | reflexivity]. Qed.

Lemma issues_bcrypt_compare now P password passwordHash :
  issues now P (bcrypt_compare password passwordHash).
Proof. intros w. exists []. split; [constructor | reflexivity]. Qed.

Ltac issues_step :=
  first
    [ apply issues_try_catch
    | apply issues_bind
    | apply issues_ret
    | apply issues_lift
    | apply issues_bcrypt_hash
    | apply issues_bcrypt_compare
    | apply issues_pool_query; simpl; try exact I; try reflexivity;
      try (split; reflexivity)
    | match goal with
      | |- issues _ _ (if ?b then _ else _) => destruct b
      | |- issues _ _ (match ?l with [] => _ | _ :: _ => _ end) => destruct l
      | |- issues _ _ (match ?s with inl _ => _ | inr _ => _ end) => destruct s
      | |- forall _, _ => intro
      end ].

Lemma route_issues now req : issues now (well_formed now) (route now req).
Proof.
  destruct req; simpl;
    unfold AuthController.register, AuthController.login,
           AuthController.refreshToken, AuthController.logout;
    repeat issues_step.
Qed.

(** ** The lockout invariant of reachable tables *)

Lemma update_where_id_Forall (P : User -> Prop) i f rows0 :
  (forall u, P u -> P (f u)) ->
  Forall P rows0 -> Forall P (update_where_id i f rows0).
Proof.
  intros Hf H. unfold update_where_id. apply Forall_map.
  eapply Forall_impl; [|exact H]. intros u Hu. simpl.
  destruct (where_id i u); auto.
Qed.





(** C3.  A login that succeeds leaves the stored record of the account with
    [failedLoginAttempts = 0] and [accountLockedUntil = null], whatever the
    two fields held before (any counter, any lock that has expired), and
    whatever persistence failures were pending. *)
Theorem successful_login_resets_lockout (now : Z) (e p : string) (w : World) :
  let r := AuthController.login now e p w in
  success (answer r) = true ->
  exists before after,
    find_by_email e (db w) = Some before
    /\ find_by_email e (store r) = Some after
    /\ failed_login_attempts after = 0
    /\ account_locked_until after = None.
Proof.
  intros r Hok. pose proof (login_outcomes now e p w) as H. fold r in H.
  simpl in H. destruct H as [ | | | | | | |u Hu Hlock Hp]; try discriminate Hok.
  exists u.
  exists (set_session (Some (TokenManager.generateRefreshToken now (id u)))
                      (Some (now + 7 * 24 * 60 * 60 * 1000))
                      (set_lockout 0 None (Some now) u)).
  split; [exact Hu|]. split; [|split; reflexivity].
  unfold committed; simpl.
  apply (find_by_email_update e
           {| rows := update_where_id (id u) (set_lockout 0 None (Some now)) (rows (db w));
              users_id_seq := users_id_seq (db w) |}
           (set_lockout 0 None (Some now) u)); [reflexivity|].
  apply (find_by_email_update e (db w) u); [reflexivity | exact Hu].
Qed.

(** C6, as the code has it.  A login for an email with no account answers
    [InvalidCredentials].  A login with a wrong password for an existing
    account gets exactly the same completion (same status, message and body)
    when no lock is in force on that account; while a lock is in force it
    answers [AccountLocked] instead, which differs from the answer for an
    unknown email, so that outcome does tell that the account exists. *)
Theorem login_hides_accounts_unless_locked
    (d1 d2 : Database) (now1 now2 : Z) (e1 p1 e2 p2 : string) (u : User) :
  find_by_email e1 d1 = None ->
  find_by_email e2 d2 = Some u ->
  bcrypt.compare p2 (password_hash u) = false ->
  answer (AuthController.login now1 e1 p1 (healthy d1)) = InvalidCredentials
  /\ (lock_expired now2 u ->
      answer (AuthController.login now2 e2 p2 (healthy d2)) = InvalidCredentials
      /\ fst (AuthController.login now2 e2 p2 (healthy d2))
         = fst (AuthController.login now1 e1 p1 (healthy d1)))
  /\ (forall lockedUntil,
      account_locked_until u = Some lockedUntil -> now2 < lockedUntil ->
      answer (AuthController.login now2 e2 p2 (healthy d2)) = AccountLocked
      /\ answer (AuthController.login now2 e2 p2 (healthy d2))
         <> answer (AuthController.login now1 e1 p1 (healthy d1))).
Proof.
  intros Hnone Hu Hp. unfold healthy.
  rewrite (login_unknown_email now1 e1 p1 d1 [] Hnone).
  split; [reflexivity|]. split.
  - intros Hlock. rewrite (login_wrong_password now2 e2 p2 d2 [] u Hu Hlock Hp).
    split; reflexivity.
  - intros lockedUntil Hlocked Hnow.
    rewrite (login_locked now2 e2 p2 d2 [] u lockedUntil Hu Hlocked Hnow).
    split; [reflexivity | discriminate].
Qed.

(** C7.  While [accountLockedUntil] is strictly in the future, a login fails
    [AccountLocked]; the only external call it makes is the SELECT (no
    [bcrypt.compare]); its completion is the same for every password; and
    the table, hence every field of the account's record, is unchanged. *)
Theorem login_while_locked_is_inert
    (d : Database) (calls : list Event) (now : Z) (e p : string)
    (u : User) (lockedUntil : Z) :
  find_by_email e d = Some u ->
  account_locked_until u = Some lockedUntil ->
  now < lockedUntil ->
  let w := {| db := d; faults := []; trace := calls |} in
  let r := AuthController.login now e p w in
  answer r = AccountLocked
  /\ trace (snd r) = EvQuery (SelectCredentialsByEmail e) :: calls
  /\ (forall p', fst (AuthController.login now e p' w) = fst r)
  /\ store r = d
  /\ find_by_email e (store r) = Some u.
Proof.
  intros Hu Hlock Hnow w r. subst w r.
  rewrite (login_locked now e p d calls u lockedUntil Hu Hlock Hnow).
  unfold answer, store; simpl. repeat split; try assumption.
  intros p'. rewrite (login_locked now e p' d calls u lockedUntil Hu Hlock Hnow).
  reflexivity.
Qed.


(** ** Tokens *)

Lemma verify_sign now issued uid em ty secret expiresIn issuer :
  jwt.verify now (jwt.sign issued uid em ty secret expiresIn issuer) secret
  = if (now / 1000 >=? issued / 1000 + expiresIn)%Z
    then Throw (Error "jwt expired")
    else Normal {| jwt.userId := uid; jwt.email := em; jwt.type := ty;
                   jwt.iat := issued / 1000; jwt.exp := issued / 1000 + expiresIn;
                   jwt.iss := issuer |}.
Proof.
  unfold jwt.verify, jwt.sign. rewrite String.eqb_refl. reflexivity.
Qed.

(** [jwt.verify] answers with the payload the token carries. *)
Lemma verify_payload now token secret decoded :
  jwt.verify now token secret = Normal decoded ->
  exists signature, token = jwt.JWT decoded signature /\ now / 1000 < jwt.exp decoded.
Proof.
  destruct token as [payload signature|raw]; simpl; [|discriminate].
  destruct (negb (signature =? jwt.hmac_sha256 secret payload)%string); [discriminate|].
  destruct (Z.geb_spec (now / 1000) (jwt.exp payload)); [discriminate|].
  intros [= ->]. exists signature. split; [reflexivity | lia].
Qed.

Lemma verifyRefreshToken_payload now token decoded :
  TokenManager.verifyRefreshToken now token = Normal decoded ->
  exists signature, token = jwt.JWT decoded signature.
Proof.
  unfold TokenManager.verifyRefreshToken, catching.
  destruct (jwt.verify now token JWT_REFRESH_SECRET) as [c|ex] eqn:Hv; [|discriminate].
  destruct (negb (jwt.type c =? "refresh")%string); [discriminate|].
  intros [= ->]. destruct (verify_payload _ _ _ _ Hv) as (s & Hs & _). eauto.
Qed.

Lemma verifyRefreshToken_throws now token ex :
  TokenManager.verifyRefreshToken now token = Throw ex ->
  ex = Error "Invalid or expired refresh token".
Proof.
  unfold TokenManager.verifyRefreshToken, catching.
  destruct (jwt.verify now token JWT_REFRESH_SECRET) as [c|ex'].
  - destruct (negb (jwt.type c =? "refresh")%string); congruence.
  - congruence.
Qed.

(** C9.  Round trip of [generateTokenPair(u, e)]: the pair carries
    [expiresIn = 900]; verified at the instant of issue, the access token
    gives back [u] and [e] and the refresh token gives back [u]; and the same
    holds at any instant before the token's expiry (15 minutes for the access
    token, 7 days for the refresh token, counted in whole seconds). *)
Theorem token_pair_round_trip (issued : Z) (u : Z) (e : string) :
  let pair := TokenManager.generateTokenPair issued u e in
  TokenManager.expiresIn pair = 900
  /\ (forall now, now / 1000 < issued / 1000 + 900 ->
      exists decoded,
        TokenManager.verifyAccessToken now (TokenManager.accessToken pair) = Normal decoded
        /\ jwt.userId decoded = u /\ jwt.email decoded = Some e)
  /\ (forall now, now / 1000 < issued / 1000 + 604800 ->
      exists decoded,
        TokenManager.verifyRefreshToken now (TokenManager.refreshToken pair) = Normal decoded
        /\ jwt.userId decoded = u)
  /\ (exists decoded,
        TokenManager.verifyAccessToken issued (TokenManager.accessToken pair) = Normal decoded
        /\ jwt.userId decoded = u /\ jwt.email decoded = Some e)
  /\ (exists decoded,
        TokenManager.verifyRefreshToken issued (TokenManager.refreshToken pair) = Normal decoded
        /\ jwt.userId decoded = u).
Proof.
  intros pair; subst pair; simpl.
  assert (A : forall now, now / 1000 < issued / 1000 + 900 ->
    exists decoded,
      TokenManager.verifyAccessToken now (TokenManager.generateAccessToken issued u e)
      = Normal decoded
      /\ jwt.userId decoded = u /\ jwt.email decoded = Some e).
  { intros now Hnow.
    unfold TokenManager.verifyAccessToken, TokenManager.generateAccessToken.
    rewrite verify_sign. change (15 * 60) with 900.
    destruct (Z.geb_spec (now / 1000) (issued / 1000 + 900)); [lia|].
    simpl. eexists; repeat split. }
  assert (R : forall now, now / 1000 < issued / 1000 + 604800 ->
    exists decoded,
      TokenManager.verifyRefreshToken now (TokenManager.generateRefreshToken issued u)
      = Normal decoded
      /\ jwt.userId decoded = u).
  { intros now Hnow.
    unfold TokenManager.verifyRefreshToken, TokenManager.generateRefreshToken.
    rewrite verify_sign. change (7 * 24 * 60 * 60) with 604800.
    destruct (Z.geb_spec (now / 1000) (issued / 1000 + 604800)); [lia|].
    simpl. eexists; repeat split. }
  split; [reflexivity|]. split; [exact A|]. split; [exact R|].
  split; [apply A | apply R]; lia.
Qed.

(** C5.  For every user id and email, at every instant and for every pair of
    secrets (equal or not): a token minted as refresh fails
    [verifyAccessToken], and a token minted as access fails
    [verifyRefreshToken], although each is correctly signed (it verifies
    under its own class at the instant of issue).  The two classes are signed
    with the two configured secrets; when the MAC tells these apart, the
    refresh token already fails the signature check under the access secret. *)
Theorem token_classes_do_not_cross (issued now : Z) (u : Z) (e : string) :
  TokenManager.verifyAccessToken now (TokenManager.generateRefreshToken issued u)
  = Throw (Error "Invalid or expired access token")
  /\ TokenManager.verifyRefreshToken now (TokenManager.generateAccessToken issued u e)
     = Throw (Error "Invalid or expired refresh token")
  /\ (exists decoded,
        TokenManager.verifyRefreshToken issued (TokenManager.generateRefreshToken issued u)
        = Normal decoded)
  /\ (exists decoded,
        TokenManager.verifyAccessToken issued (TokenManager.generateAccessToken issued u e)
        = Normal decoded)
  /\ (exists payload,
        TokenManager.generateAccessToken issued u e
        = jwt.JWT payload (jwt.hmac_sha256 JWT_SECRET payload))
  /\ (exists payload,
        TokenManager.generateRefreshToken issued u
        = jwt.JWT payload (jwt.hmac_sha256 JWT_REFRESH_SECRET payload))
  /\ ((forall payload, jwt.hmac_sha256 JWT_REFRESH_SECRET payload
                        <> jwt.hmac_sha256 JWT_SECRET payload) ->
      jwt.verify now (TokenManager.generateRefreshToken issued u) JWT_SECRET
      = Throw (Error "invalid signature")).
Proof.
  split; [|split; [|split; [|split; [|split; [|split]]]]].
  - unfold TokenManager.verifyAccessToken, TokenManager.generateRefreshToken,
      jwt.verify, jwt.sign.
    destruct (negb (_ =? _)%string); [reflexivity|].
    destruct (_ >=? _)%Z; reflexivity.
  - unfold TokenManager.verifyRefreshToken, TokenManager.generateAccessToken,
      jwt.verify, jwt.sign.
    destruct (negb (_ =? _)%string); [reflexivity|].
    destruct (_ >=? _)%Z; reflexivity.
  - unfold TokenManager.verifyRefreshToken, TokenManager.generateRefreshToken.
    rewrite verify_sign.
    destruct (Z.geb_spec (issued / 1000) (issued / 1000 + 7 * 24 * 60 * 60)); [lia|].
    simpl. eexists; reflexivity.
  - unfold TokenManager.verifyAccessToken, TokenManager.generateAccessToken.
    rewrite verify_sign.
    destruct (Z.geb_spec (issued / 1000) (issued / 1000 + 15 * 60)); [lia|].
    simpl. eexists; reflexivity.
  - eexists; reflexivity.
  - eexists; reflexivity.
  - intros Hmac. unfold TokenManager.generateRefreshToken, jwt.verify, jwt.sign.
    match goal with
    | |- context [(?a =? ?b)%string] => destruct (String.eqb_spec a b) as [Heq|Hne]
    end; [|reflexivity].
    exfalso. exact (Hmac _ Heq).
Qed.

(** ** Refresh: every outcome *)

Lemma refresh_outcomes now token w :
  let r := AuthController.refreshToken now token w in
  refresh_outcome now token (db w) (answer r) (store r).
Proof.
  destruct w as [d pending calls]; simpl.
  unfold AuthController.refreshToken, try_catch, bind, lift, pool_query, answer, store.
  destruct (TokenManager.verifyRefreshToken now token) as [decoded|ex] eqn:Hv; simpl;
    [|apply refresh_refused; right; right; reflexivity].
  destruct (verifyRefreshToken_payload _ _ _ Hv) as [signature Htoken].
  destruct pending as [|[|] pending]; simpl;
    try (apply refresh_refused; right; right; reflexivity).
  all: destruct (filter (where_id (jwt.userId decoded)) (rows d)) as [|u rest] eqn:Hrows;
    simpl; [apply refresh_refused; left; reflexivity|].
  all: assert (Hu : find_by_id (jwt.userId decoded) d = Some u)
    by (unfold find_by_id; rewrite Hrows; reflexivity).
  all: destruct (option_eqb jwt.token_eqb (refresh_token u) (Some token)) eqn:Hstored;
    simpl; [|apply refresh_refused; right; left; reflexivity].
  all: apply stored_token_eqb_eq in Hstored.
  all: destruct (Z.gtb_spec now (Date (refresh_token_expires u))) as [Hlate|Hintime];
    simpl; [apply refresh_refused; right; left; reflexivity|].
  all: repeat match goal with
         | |- context [match ?l with [] => _ | _ :: _ => _ end] =>
             match type of l with list bool => destruct l as [|[|] ?] end; simpl
         end.
  all: try (apply refresh_refused; right; right; reflexivity).
  all: eapply refresh_rotated; eauto.
Qed.

Lemma InvalidToken_failure r : InvalidToken r -> success r = false.
Proof. intros [->|[->| ->]]; reflexivity. Qed.

(** A refresh presenting [token] is refused when the first row under the
    token's subject does not store [token]. *)
Lemma refresh_refused_unless_stored now token w :
  (forall decoded signature u,
      token = jwt.JWT decoded signature ->
      find_by_id (jwt.userId decoded) (db w) = Some u ->
      refresh_token u <> Some token) ->
  InvalidToken (answer (AuthController.refreshToken now token w)).
Proof.
  intros Hnot. pose proof (refresh_outcomes now token w) as H. simpl in H.
  destruct H as [response Hinv | decoded signature u Htoken Hu Hstored _].
  - exact Hinv.
  - exfalso. exact (Hnot decoded signature u Htoken Hu Hstored).
Qed.

(** ** Rotation *)

(** What rotation achieves.  A refresh that succeeds presented
    exactly the token stored for its subject, no later than the stored
    expiry, and stores the new refresh token [T2] in its place; when [T2]
    differs from the presented [T1], every later refresh presenting [T1] on
    that table is refused as an invalid token, at every instant (so even
    while the signature and embedded expiry of [T1] are still good) and
    whatever persistence failures are pending. *)
Theorem refresh_tokens_are_single_use (now : Z) (T1 : jwt.Token) (w : World) :
  let r := AuthController.refreshToken now T1 w in
  success (answer r) = true ->
  exists u T2,
    find_by_id (id u) (db w) = Some u
    /\ refresh_token u = Some T1
    /\ now <= Date (refresh_token_expires u)
    /\ answer r = refresh_success now u
    /\ T2 = TokenManager.refreshToken (TokenManager.generateTokenPair now (id u) (users.email u))
    /\ (exists stored, find_by_id (id u) (store r) = Some stored
                       /\ refresh_token stored = Some T2)
    /\ (T2 <> T1 ->
        forall now' pending calls,
          InvalidToken
            (answer (AuthController.refreshToken now' T1
                       {| db := store r; faults := pending; trace := calls |}))).
Proof.
  intros r Hok. pose proof (refresh_outcomes now T1 w) as H. fold r in H. simpl in H.
  destruct H as [response Hinv | decoded signature u Htoken Hu Hstored Hintime].
  { rewrite (InvalidToken_failure _ Hinv) in Hok. discriminate. }
  pose proof (find_by_id_id _ _ _ Hu) as Hid. rewrite <- Hid in Hu.
  set (T2 := TokenManager.generateRefreshToken now (id u)).
  assert (Hafter : find_by_id (id u)
            (committed now (UpdateRefreshToken T2 (now + 7 * 24 * 60 * 60 * 1000) (id u)) (db w))
          = Some (set_session (Some T2) (Some (now + 7 * 24 * 60 * 60 * 1000)) u)).
  { unfold committed; simpl.
    apply (find_by_id_update (id u) (db w) u); [reflexivity | exact Hu]. }
  exists u, T2. repeat split; try assumption; try reflexivity.
  - eexists; split; [exact Hafter | reflexivity].
  - intros Hdiff now' pending calls.
    apply refresh_refused_unless_stored. simpl.
    intros decoded' signature' u' Htoken' Hu' Hstored'.
    rewrite Htoken in Htoken'. injection Htoken' as <- <-.
    rewrite <- Hid in Hu'.
    pose proof (eq_trans (eq_sym Hu') Hafter) as Hsame. injection Hsame as ->.
    simpl in Hstored'. injection Hstored' as HT. exact (Hdiff HT).
Qed.

(** ** A rotated-away token stays revoked *)

Lemma committed_never_stores now q T i d :
  well_formed now q ->
  (forall j, TokenManager.generateRefreshToken now j <> T) ->
  never_stores T i d -> never_stores T i (committed now q d).
Proof.
  unfold never_stores, committed. intros Hq Hfresh Hd.
  destruct q; simpl in *; try assumption.
  - destruct (existsb (where_email e) (rows d)); simpl; [assumption|].
    apply Forall_app; split; [assumption|].
    repeat constructor. simpl. discriminate.
  - destruct Hq as [-> _].
    apply update_where_id_Forall; [|assumption]. intros u _ _; simpl.
    intros [= HT]. exact (Hfresh _ HT).
  - apply update_where_id_Forall; [|assumption]. intros u Hu; exact Hu.
  - apply update_where_id_Forall; [|assumption]. intros u Hu; exact Hu.
  - apply update_where_id_Forall; [|assumption]. intros u _ _; simpl. discriminate.
Qed.

Lemma run_statements_never_stores now qs T i d :
  Forall (well_formed now) qs ->
  (forall j, TokenManager.generateRefreshToken now j <> T) ->
  never_stores T i d -> never_stores T i (run_statements now qs d).
Proof.
  intros Hqs Hfresh. revert d. induction Hqs as [|q qs Hq _ IH]; intros d Hd; simpl.
  - exact Hd.
  - apply IH. apply committed_never_stores; assumption.
Qed.

Lemma minted_in_another_second now j payload signature :
  now / 1000 <> jwt.iat payload ->
  TokenManager.generateRefreshToken now j <> jwt.JWT payload signature.
Proof.
  intros Hsecond [= <- _]. apply Hsecond. reflexivity.
Qed.

Lemma serve_never_stores steps payload signature i d :
  Forall (fun step => fst (fst step) / 1000 <> jwt.iat payload) steps ->
  never_stores (jwt.JWT payload signature) i d ->
  never_stores (jwt.JWT payload signature) i (serve steps d).
Proof.
  intros Hsteps. revert d.
  induction Hsteps as [|[[now req] pending] steps Hnow _ IH]; intros d Hd; simpl.
  - exact Hd.
  - apply IH. unfold store.
    destruct (route_issues now req {| db := d; faults := pending; trace := [] |})
      as (qs & Hqs & ->).
    apply run_statements_never_stores; [exact Hqs| |exact Hd].
    intros j. apply minted_in_another_second. exact Hnow.
Qed.

Lemma refresh_refused_never_stored now payload signature w :
  never_stores (jwt.JWT payload signature) (jwt.userId payload) (db w) ->
  InvalidToken (answer (AuthController.refreshToken now (jwt.JWT payload signature) w)).
Proof.
  intros Hnever. apply refresh_refused_unless_stored.
  intros decoded signature' u [= <- <-] Hu.
  destruct (find_by_id_rows _ _ _ Hu) as [rest Hrest].
  assert (Hin : In u (filter (where_id (jwt.userId payload)) (rows (db w))))
    by (rewrite Hrest; left; reflexivity).
  apply filter_In in Hin. destruct Hin as [Hin Hid]. apply Z.eqb_eq in Hid.
  unfold never_stores in Hnever. rewrite Forall_forall in Hnever.
  exact (Hnever u Hin Hid).
Qed.

(** Rotation over a whole session.  After a refresh that rotated [T1] away
    (the new token differs from it), [T1] is refused by every later refresh,
    whatever requests were served in between, as long as none of them was
    served in the very second [T1] was minted in. *)
Theorem rotated_token_stays_revoked
    (now : Z) (payload : jwt.Claims) (signature : string) (w : World)
    (steps : list (Z * Request * list bool)) (now' : Z) (pending : list bool)
    (calls : list Event) :
  let T1 := jwt.JWT payload signature in
  let r := AuthController.refreshToken now T1 w in
  success (answer r) = true ->
  now / 1000 <> jwt.iat payload ->
  Forall (fun step => fst (fst step) / 1000 <> jwt.iat payload) steps ->
  InvalidToken
    (answer (AuthController.refreshToken now' T1
               {| db := serve steps (store r); faults := pending; trace := calls |})).
Proof.
  intros T1 r Hok Hsecond Hsteps.
  apply refresh_refused_never_stored. simpl.
  apply serve_never_stores; [exact Hsteps|].
  pose proof (refresh_outcomes now T1 w) as H. fold r in H. simpl in H.
  destruct H as [response Hinv | decoded signature' u Htoken Hu _ _].
  { rewrite (InvalidToken_failure _ Hinv) in Hok. discriminate. }
  injection Htoken as <- <-.
  pose proof (find_by_id_id _ _ _ Hu) as Hid.
  unfold never_stores, committed; simpl. unfold update_where_id.
  apply Forall_map. apply Forall_forall. intros v _. simpl.
  destruct (where_id (id u) v) eqn:Hv; simpl.
  - intros _ HT.
    apply (minted_in_another_second now (id u) payload signature Hsecond).
    congruence.
  - unfold where_id in Hv. apply Z.eqb_neq in Hv. intros Hvid. congruence.
Qed.

(** ** Logout *)

Lemma update_where_id_idempotent i f rows0 :
  (forall u, id (f u) = id u) -> (forall u, f (f u) = f u) ->
  update_where_id i f (update_where_id i f rows0) = update_where_id i f rows0.
Proof.
  intros Hid Hff. unfold update_where_id. rewrite map_map. apply map_ext.
  intros u. destruct (where_id i u) eqn:Hu; [|rewrite Hu; reflexivity].
  unfold where_id in *. rewrite Hid, Hu. apply Hff.
Qed.

Lemma cleared_rows i d u :
  In u (rows (committed 0 (ClearRefreshToken i) d)) -> id u = i ->
  refresh_token u = None /\ refresh_token_expires u = None.
Proof.
  unfold committed; simpl. unfold update_where_id. rewrite in_map_iff.
  intros (v & <- & _). destruct (where_id i v) eqn:Hv; simpl.
  - intros _; split; reflexivity.
  - unfold where_id in Hv. apply Z.eqb_neq in Hv. intros Hid; contradiction.
Qed.

(** C4.  On a healthy connection, logout answers success and sets the stored
    refresh token and its expiry to [null] in the user's record: the table
    after it is the table before it, row for row, with these two columns
    nulled in the rows of the user and nothing else changed; afterwards
    every refresh presenting a refresh token of that user (any token issued
    to the user, at whatever instant, and any token whose subject is the
    user) is refused as an invalid token, at every instant; and a second
    logout answers success again and changes nothing. *)
Theorem logout_revokes_refresh_token
    (d : Database) (calls : list Event) (now : Z) (user : jwt.Claims) :
  let r := AuthController.logout now user {| db := d; faults := []; trace := calls |} in
  answer r = logout_success
  /\ rows (store r)
     = map (fun u => if (id u =? jwt.userId user)%Z
                     then {| id := id u; users.email := users.email u;
                             password_hash := password_hash u;
                             refresh_token := None;
                             refresh_token_expires := None;
                             failed_login_attempts := failed_login_attempts u;
                             account_locked_until := account_locked_until u;
                             last_login := last_login u;
                             created_at := created_at u;
                             updated_at := updated_at u |}
                     else u)
           (rows d)
  /\ users_id_seq (store r) = users_id_seq d
  /\ (forall u, In u (rows d) -> id u = jwt.userId user ->
      exists cleared, In cleared (rows (store r))
                      /\ identity cleared = identity u
                      /\ lockout cleared = lockout u
                      /\ refresh_token cleared = None
                      /\ refresh_token_expires cleared = None)
  /\ (forall u, In u (rows (store r)) -> id u = jwt.userId user ->
      refresh_token u = None /\ refresh_token_expires u = None)
  /\ (forall issued now' pending calls',
      InvalidToken
        (answer (AuthController.refreshToken now'
                   (TokenManager.generateRefreshToken issued (jwt.userId user))
                   {| db := store r; faults := pending; trace := calls' |})))
  /\ (forall payload signature now' pending calls',
      jwt.userId payload = jwt.userId user ->
      InvalidToken
        (answer (AuthController.refreshToken now' (jwt.JWT payload signature)
                   {| db := store r; faults := pending; trace := calls' |})))
  /\ (forall now2,
      let r2 := AuthController.logout now2 user (snd r) in
      answer r2 = logout_success /\ store r2 = store r).
Proof.
  intros r.
  assert (Hstore : store r = committed 0 (ClearRefreshToken (jwt.userId user)) d)
    by reflexivity.
  assert (Hrows : forall u, In u (rows (store r)) -> id u = jwt.userId user ->
            refresh_token u = None /\ refresh_token_expires u = None).
  { rewrite Hstore. apply cleared_rows. }
  assert (Hrefused : forall payload signature now' pending calls',
      jwt.userId payload = jwt.userId user ->
      InvalidToken
        (answer (AuthController.refreshToken now' (jwt.JWT payload signature)
                   {| db := store r; faults := pending; trace := calls' |}))).
  { intros payload signature now' pending calls' Hsubject.
    apply refresh_refused_unless_stored. simpl.
    intros decoded signature' u [= <- <-] Hu.
    destruct (find_by_id_rows _ _ _ Hu) as [rest Hrest].
    assert (Hin : In u (filter (where_id (jwt.userId payload)) (rows (store r))))
      by (rewrite Hrest; left; reflexivity).
    apply filter_In in Hin. destruct Hin as [Hin Hid]. apply Z.eqb_eq in Hid.
    destruct (Hrows u Hin) as [Hnone _]; [congruence|].
    rewrite Hnone. discriminate. }
  split; [reflexivity|]. split; [reflexivity|]. split; [reflexivity|].
  split.
  { intros u Hin Hid.
    exists (set_session None None u). split; [|repeat split].
    rewrite Hstore. unfold committed; simpl. unfold update_where_id.
    apply in_map_iff. exists u. split; [|exact Hin].
    unfold where_id. rewrite Hid, Z.eqb_refl. reflexivity. }
  split; [exact Hrows|]. split; [|split].
  - intros issued now' pending calls'. apply Hrefused. reflexivity.
  - exact Hrefused.
  - intros now2 r2. split; [reflexivity|].
    subst r2 r. unfold store, AuthController.logout, try_catch, bind, pool_query; simpl.
    f_equal. apply update_where_id_idempotent; reflexivity.
Qed.

(** ** Error paths and the store *)

Lemma filter_nil_existsb {A} (p : A -> bool) (l : list A) :
  filter p l = [] -> existsb p l = false.
Proof.
  induction l as [|a l IH]; simpl; [reflexivity|].
  destruct (p a); [discriminate | exact IH].
Qed.

Lemma register_error_healthy now salt e p d calls :
  let r := AuthController.register now salt e p {| db := d; faults := []; trace := calls |} in
  success (answer r) = false -> store r = d.
Proof.
  unfold AuthController.register, try_catch, bind, pool_query, bcrypt_hash, answer, store.
  simpl.
  destruct (filter (where_email e) (rows d)) as [|existing rest] eqn:Hrows; simpl.
  - rewrite (filter_nil_existsb _ _ Hrows). simpl. discriminate.
  - reflexivity.
Qed.

Lemma login_error_healthy now e p d calls :
  let r := AuthController.login now e p {| db := d; faults := []; trace := calls |} in
  success (answer r) = false ->
  store r = d
  \/ exists u,
       find_by_email e d = Some u
       /\ answer r = InvalidCredentials
       /\ store r = committed now
                      (UpdateFailedAttempts (failed_login_attempts u + 1)
                                            (lockUntil_for now u) (id u)) d.
Proof.
  unfold AuthController.login, try_catch, bind, pool_query, bcrypt_compare, answer, store,
    find_by_email.
  simpl.
  destruct (filter (where_email e) (rows d)) as [|u rest] eqn:Hrows; simpl; [left; reflexivity|].
  fold (locked_at now u). destruct (locked_at now u); simpl; [left; reflexivity|].
  destruct (bcrypt.compare p (password_hash u)); simpl; [discriminate|].
  intros _. right. exists u. repeat split.
Qed.

(** C8, as the code has it.  Whatever persistence failures are pending, the
    table an operation leaves is the table it found after a sequence of whole
    statements, and a statement that writes [failedLoginAttempts] always
    writes the [accountLockedUntil] that goes with it.  On a healthy
    connection, an operation that answers an error leaves the table as it
    found it, with one exception: a login with a wrong password commits the
    incremented counter and its lock in one UPDATE.  (The operations are not
    transactions: a write made before a failing statement stays.) *)
Theorem error_paths_commit_whole_statements (now : Z) (req : Request) (w : World) :
  let r := route now req w in
  (exists qs, Forall (well_formed now) qs /\ store r = run_statements now qs (db w))
  /\ (faults w = [] ->
      success (answer r) = false ->
      store r = db w
      \/ exists e p u,
           req = PostLogin e p
           /\ find_by_email e (db w) = Some u
           /\ answer r = InvalidCredentials
           /\ store r = committed now
                          (UpdateFailedAttempts (failed_login_attempts u + 1)
                             (if (failed_login_attempts u + 1 >=? 5)%Z
                              then Some (now + 15 * 60 * 1000) else None)
                             (id u)) (db w)).
Proof.
  intros r. split; [exact (route_issues now req w)|].
  destruct w as [d pending calls]; simpl. intros -> Herr.
  destruct req as [salt e p|e p|token|authorization]; simpl in r.
  - left. exact (register_error_healthy now salt e p d calls Herr).
  - destruct (login_error_healthy now e p d calls Herr) as [Hsame|(u & Hu & Ha & Hs)].
    + left; exact Hsame.
    + right. exists e, p, u. repeat split; assumption.
  - left. pose proof (refresh_outcomes now token {| db := d; faults := []; trace := calls |}) as H.
    fold r in H. simpl in H.
    destruct H as [response Hinv | decoded signature u Htoken Hu Hstored _];
      [reflexivity | discriminate Herr].
  - left. subst r. destruct (authenticate now authorization) as [response|user].
    + reflexivity.
    + discriminate Herr.
Qed.

(** ** Handlers always answer *)

Lemma try_catch_answers {A} (body : M A) (fallback : A) w :
  exists a, fst (try_catch body (fun _ => ret fallback) w) = Normal a.
Proof.
  unfold try_catch, ret. destruct (body w) as [[a|ex] w']; simpl; eauto.
Qed.

Lemma route_never_throws now req w :
  exists response, fst (route now req w) = Normal response.
Proof.
  destruct req; simpl; try apply try_catch_answers.
  destruct (authenticate now authorization); [eexists; reflexivity|].
  apply try_catch_answers.
Qed.

(** ** Reachable tables from a script of requests *)

Lemma reachable_after_requests now reqs d :
  reachable d -> reachable (after_requests now reqs d).
Proof.
  revert d. induction reqs as [|req reqs IH]; intros d Hd; simpl; [exact Hd|].
  apply IH. apply reachable_route. exact Hd.
Qed.

(** * Further properties of the code *)

(** ** Token verification, characterised *)

Lemma verify_accepts now token secret decoded :
  jwt.verify now token secret = Normal decoded
  <-> token = jwt.JWT decoded (jwt.hmac_sha256 secret decoded)
      /\ now / 1000 < jwt.exp decoded.
Proof.
  split.
  - destruct token as [payload signature|raw]; simpl; [|discriminate].
    destruct (String.eqb_spec signature (jwt.hmac_sha256 secret payload)) as [->|_];
      simpl; [|discriminate].
    destruct (Z.geb_spec (now / 1000) (jwt.exp payload)); [discriminate|].
    intros [= ->]. split; [reflexivity | lia].
  - intros [-> Hexp]. simpl. rewrite String.eqb_refl. simpl.
    destruct (Z.geb_spec (now / 1000) (jwt.exp decoded)); [lia | reflexivity].
Qed.

Lemma verifyAccessToken_accepts now token decoded :
  TokenManager.verifyAccessToken now token = Normal decoded
  <-> token = jwt.JWT decoded (jwt.hmac_sha256 JWT_SECRET decoded)
      /\ jwt.type decoded = "access"
      /\ now / 1000 < jwt.exp decoded.
Proof.
  unfold TokenManager.verifyAccessToken, catching. split.
  - destruct (jwt.verify now token JWT_SECRET) as [c|ex] eqn:Hv; [|discriminate].
    destruct (String.eqb_spec (jwt.type c) "access") as [Ht|_]; simpl; [|discriminate].
    intros [= ->]. apply verify_accepts in Hv. tauto.
  - intros (Htoken & Ht & Hexp).
    rewrite (proj2 (verify_accepts now token JWT_SECRET decoded) (conj Htoken Hexp)).
    rewrite Ht. reflexivity.
Qed.

Lemma verifyRefreshToken_accepts now token decoded :
  TokenManager.verifyRefreshToken now token = Normal decoded
  <-> token = jwt.JWT decoded (jwt.hmac_sha256 JWT_REFRESH_SECRET decoded)
      /\ jwt.type decoded = "refresh"
      /\ now / 1000 < jwt.exp decoded.
Proof.
  unfold TokenManager.verifyRefreshToken, catching. split.
  - destruct (jwt.verify now token JWT_REFRESH_SECRET) as [c|ex] eqn:Hv; [|discriminate].
    destruct (String.eqb_spec (jwt.type c) "refresh") as [Ht|_]; simpl; [|discriminate].
    intros [= ->]. apply verify_accepts in Hv. tauto.
  - intros (Htoken & Ht & Hexp).
    rewrite (proj2 (verify_accepts now token JWT_REFRESH_SECRET decoded)
               (conj Htoken Hexp)).
    rewrite Ht. reflexivity.
Qed.

Lemma verifyAccessToken_throws now token ex :
  TokenManager.verifyAccessToken now token = Throw ex ->
  ex = Error "Invalid or expired access token".
Proof.
  unfold TokenManager.verifyAccessToken, catching.
  destruct (jwt.verify now token JWT_SECRET) as [c|ex'].
  - destruct (negb (jwt.type c =? "access")%string); congruence.
  - congruence.
Qed.

(** X1.  [verifyAccessToken] returns a payload exactly for a token that
    carries this payload signed under [JWT_SECRET], has type ["access"] and
    whose [exp] second has not been reached; [verifyRefreshToken] likewise
    with [JWT_REFRESH_SECRET] and type ["refresh"].  Everything else,
    malformed strings included, throws the one generic error. *)
Theorem verifiers_accept_exactly (now : Z) (token : jwt.Token) (decoded : jwt.Claims) :
  (TokenManager.verifyAccessToken now token = Normal decoded
   <-> token = jwt.JWT decoded (jwt.hmac_sha256 JWT_SECRET decoded)
       /\ jwt.type decoded = "access"
       /\ now / 1000 < jwt.exp decoded)
  /\ (TokenManager.verifyRefreshToken now token = Normal decoded
      <-> token = jwt.JWT decoded (jwt.hmac_sha256 JWT_REFRESH_SECRET decoded)
          /\ jwt.type decoded = "refresh"
          /\ now / 1000 < jwt.exp decoded)
  /\ (forall ex, TokenManager.verifyAccessToken now token = Throw ex ->
                 ex = Error "Invalid or expired access token")
  /\ (forall ex, TokenManager.verifyRefreshToken now token = Throw ex ->
                 ex = Error "Invalid or expired refresh token")
  /\ (forall raw,
      TokenManager.verifyAccessToken now (jwt.Malformed raw)
      = Throw (Error "Invalid or expired access token")
      /\ TokenManager.verifyRefreshToken now (jwt.Malformed raw)
         = Throw (Error "Invalid or expired refresh token")).
Proof.
  split; [|split; [|split; [|split]]].
  - apply verifyAccessToken_accepts.
  - apply verifyRefreshToken_accepts.
  - apply verifyAccessToken_throws.
  - apply verifyRefreshToken_throws.
  - intros raw. split; reflexivity.
Qed.

(** X2.  A minted token is accepted by its verifier exactly until its expiry
    second: the access token while [now/1000 < issued/1000 + 900], the
    refresh token while [now/1000 < issued/1000 + 604800]; from that second
    on the verifier throws. *)
Theorem minted_tokens_expire_on_the_second (issued now : Z) (u : Z) (e : string) :
  ((exists decoded,
       TokenManager.verifyAccessToken now (TokenManager.generateAccessToken issued u e)
       = Normal decoded)
   <-> now / 1000 < issued / 1000 + 900)
  /\ ((exists decoded,
          TokenManager.verifyRefreshToken now (TokenManager.generateRefreshToken issued u)
          = Normal decoded)
      <-> now / 1000 < issued / 1000 + 604800)
  /\ (issued / 1000 + 900 <= now / 1000 ->
      TokenManager.verifyAccessToken now (TokenManager.generateAccessToken issued u e)
      = Throw (Error "Invalid or expired access token"))
  /\ (issued / 1000 + 604800 <= now / 1000 ->
      TokenManager.verifyRefreshToken now (TokenManager.generateRefreshToken issued u)
      = Throw (Error "Invalid or expired refresh token")).
Proof.
  unfold TokenManager.verifyAccessToken, TokenManager.verifyRefreshToken,
    TokenManager.generateAccessToken, TokenManager.generateRefreshToken.
  rewrite !verify_sign.
  change (15 * 60) with 900. change (7 * 24 * 60 * 60) with 604800.
  destruct (Z.geb_spec (now / 1000) (issued / 1000 + 900)) as [Ha|Ha];
    destruct (Z.geb_spec (now / 1000) (issued / 1000 + 604800)) as [Hr|Hr]; simpl.
  all: repeat split; try lia; try reflexivity; try (intros; eexists; reflexivity).
  all: try (intros [decoded Hd]; discriminate Hd).
Qed.

(** X3.  Tokens have a resolution of one second: two refresh tokens are the
    same token exactly when they are minted for the same user in the same
    second, and likewise two access tokens (same user, same email, same
    second). *)
Theorem tokens_equal_iff_same_second (t t' : Z) (u u' : Z) (e e' : string) :
  (TokenManager.generateRefreshToken t u = TokenManager.generateRefreshToken t' u'
   <-> t / 1000 = t' / 1000 /\ u = u')
  /\ (TokenManager.generateAccessToken t u e = TokenManager.generateAccessToken t' u' e'
      <-> t / 1000 = t' / 1000 /\ u = u' /\ e = e').
Proof.
  unfold TokenManager.generateRefreshToken, TokenManager.generateAccessToken, jwt.sign.
  split; split.
  - intros [= Hu Hiat _ _]. split; assumption.
  - intros [-> ->]. reflexivity.
  - intros [= Hu He Hiat _ _]. repeat split; assumption.
  - intros (-> & -> & ->). reflexivity.
Qed.

(** ** The [authenticate] middleware and [GET /me] *)

(** X4.  [authenticate] lets a request through exactly when the header is
    ["Bearer "] followed by a correctly signed, unexpired token of type
    ["access"], and [req.user] is then the token's payload.  It answers 401
    "No token provided" exactly for a missing header or another scheme, and
    401 "Invalid or expired token" exactly for a bearer token that
    [verifyAccessToken] does not accept (an undecodable token and a refresh
    token included). *)
Theorem authenticate_accepts_exactly (now : Z) (authHeader : Authorization) :
  (forall user,
      authenticate now authHeader = inr user
      <-> authHeader = Bearer (jwt.JWT user (jwt.hmac_sha256 JWT_SECRET user))
          /\ jwt.type user = "access"
          /\ now / 1000 < jwt.exp user)
  /\ (forall response,
      authenticate now authHeader = inl response
      <-> ((authHeader = NoHeader \/ exists value, authHeader = OtherScheme value)
           /\ response = failure 401 "No token provided")
          \/ (exists token,
                authHeader = Bearer token
                /\ (forall user, TokenManager.verifyAccessToken now token <> Normal user)
                /\ response = failure 401 "Invalid or expired token"))
  /\ (forall raw,
      authenticate now (Bearer (jwt.Malformed raw))
      = inl (failure 401 "Invalid or expired token"))
  /\ (forall value,
      authenticate now NoHeader = inl (failure 401 "No token provided")
      /\ authenticate now (OtherScheme value) = inl (failure 401 "No token provided"))
  /\ (forall issued u,
      authenticate now (Bearer (TokenManager.generateRefreshToken issued u))
      = inl (failure 401 "Invalid or expired token")).
Proof.
  split; [|split; [|split; [|split]]].
  - intros user. split.
    + destruct authHeader as [|token|value]; simpl; try discriminate.
      destruct (TokenManager.verifyAccessToken now token) as [c|ex] eqn:Hv; [|discriminate].
      intros [= ->].
      apply verifyAccessToken_accepts in Hv.
      destruct Hv as (-> & Ht & Hexp). repeat split; assumption.
    + intros (-> & Ht & Hexp). simpl.
      rewrite (proj2 (verifyAccessToken_accepts now _ user));
        [reflexivity | repeat split; assumption].
  - intros response. split.
    + destruct authHeader as [|token|value]; simpl.
      * intros [= <-]. left. split; [left; reflexivity | reflexivity].
      * destruct (TokenManager.verifyAccessToken now token) as [c|ex] eqn:Hv;
          [discriminate|].
        intros [= <-]. right. exists token. split; [reflexivity|].
        split; [|reflexivity]. intros user Huser. rewrite Hv in Huser. discriminate Huser.
      * intros [= <-]. left. split; [right; exists value; reflexivity | reflexivity].
    + intros [[[->|[value ->]] ->]|(token & -> & Hrefused & ->)]; simpl;
        try reflexivity.
      destruct (TokenManager.verifyAccessToken now token) as [c|ex] eqn:Hv;
        [|reflexivity].
      exfalso. exact (Hrefused c eq_refl).
  - intros raw. reflexivity.
  - intros value. split; reflexivity.
  - intros issued u. simpl.
    unfold TokenManager.verifyAccessToken, TokenManager.generateRefreshToken,
      jwt.verify, jwt.sign.
    destruct (negb (_ =? _)%string); [reflexivity|].
    destruct (_ >=? _)%Z; reflexivity.
Qed.

(** ** Tables the service builds are consistent *)

Lemma map_update_where_id {B} (g : User -> B) i f rows0 :
  (forall u, g (f u) = g u) ->
  map g (update_where_id i f rows0) = map g rows0.
Proof.
  intros Hg. unfold update_where_id. rewrite map_map. apply map_ext.
  intros u. destruct (where_id i u); [apply Hg | reflexivity].
Qed.

Lemma update_where_id_Forall_id (P : User -> Prop) i f rows0 :
  (forall u, id u = i -> P u -> P (f u)) ->
  Forall P rows0 -> Forall P (update_where_id i f rows0).
Proof.
  intros Hf H. unfold update_where_id. apply Forall_map.
  eapply Forall_impl; [|exact H]. intros u Hu. simpl.
  destruct (where_id i u) eqn:Hi; [|exact Hu].
  apply Hf; [apply Z.eqb_eq; exact Hi | exact Hu].
Qed.

Lemma existsb_where_email_false e rows0 :
  existsb (where_email e) rows0 = false -> ~ In e (map users.email rows0).
Proof.
  intros Hex Hin. apply in_map_iff in Hin. destruct Hin as (u & Hu & Hin).
  assert (Htrue : existsb (where_email e) rows0 = true).
  { apply existsb_exists. exists u. split; [exact Hin|].
    unfold where_email. rewrite Hu. apply String.eqb_refl. }
  congruence.
Qed.

Lemma NoDup_app_singleton {A} (l : list A) (a : A) :
  NoDup l -> ~ In a l -> NoDup (l ++ [a])%list.
Proof.
  induction 1 as [|b l Hb Hl IH]; simpl; intros Ha.
  - constructor; [intros []|constructor].
  - constructor.
    + rewrite in_app_iff. simpl. intros [Hin|[->|[]]]; [contradiction|].
      apply Ha. left; reflexivity.
    + apply IH. intros Hin. apply Ha. right; exact Hin.
Qed.

Lemma committed_consistent now q d :
  well_formed now q -> consistent d -> consistent (committed now q d).
Proof.
  unfold consistent, committed.
  intros Hq (Hemails & Hids & Hseq & Hbound & Hsessions).
  destruct q; simpl in *; try (split; [|split; [|split; [|split]]]; assumption).
  - (* INSERT *)
    destruct (existsb (where_email e) (rows d)) eqn:Hex; simpl.
    + split; [|split; [|split; [|split]]]; try assumption; try lia.
      eapply Forall_impl; [|exact Hbound]. simpl. intros u Hu. lia.
    + rewrite !map_app. simpl. split; [|split; [|split; [|split]]].
      * apply NoDup_app_singleton; [exact Hemails|].
        apply existsb_where_email_false. exact Hex.
      * apply NoDup_app_singleton; [exact Hids|].
        intros Hin. apply in_map_iff in Hin. destruct Hin as (u & Hu & Hin).
        rewrite Forall_forall in Hbound. specialize (Hbound u Hin). lia.
      * lia.
      * apply Forall_app. split.
        -- eapply Forall_impl; [|exact Hbound]. simpl. intros u Hu. lia.
        -- constructor; [simpl; lia | constructor].
      * apply Forall_app. split; [exact Hsessions|].
        constructor; [|constructor]. left. split; reflexivity.
  - (* UPDATE refresh_token *)
    destruct Hq as [-> ->].
    rewrite !map_update_where_id by reflexivity.
    split; [|split; [|split; [|split]]]; try assumption.
    + apply update_where_id_Forall; [|exact Hbound]. intros u Hu. exact Hu.
    + apply update_where_id_Forall_id; [|exact Hsessions].
      intros u <- _. right. exists now. split; reflexivity.
  - (* UPDATE failed_login_attempts *)
    rewrite !map_update_where_id by reflexivity.
    split; [|split; [|split; [|split]]]; try assumption.
    + apply update_where_id_Forall; [|exact Hbound]. intros u Hu. exact Hu.
    + apply update_where_id_Forall; [|exact Hsessions]. intros u Hu. exact Hu.
  - (* reset *)
    rewrite !map_update_where_id by reflexivity.
    split; [|split; [|split; [|split]]]; try assumption.
    + apply update_where_id_Forall; [|exact Hbound]. intros u Hu. exact Hu.
    + apply update_where_id_Forall; [|exact Hsessions]. intros u Hu. exact Hu.
  - (* clear *)
    rewrite !map_update_where_id by reflexivity.
    split; [|split; [|split; [|split]]]; try assumption.
    + apply update_where_id_Forall; [|exact Hbound]. intros u Hu. exact Hu.
    + apply update_where_id_Forall; [|exact Hsessions].
      intros u _. left. split; reflexivity.
Qed.

Lemma run_statements_consistent now qs d :
  Forall (well_formed now) qs -> consistent d -> consistent (run_statements now qs d).
Proof.
  intros Hqs. revert d. induction Hqs as [|q qs Hq _ IH]; intros d Hd; simpl.
  - exact Hd.
  - apply IH. apply committed_consistent; assumption.
Qed.

Lemma reachable_consistent d : reachable d -> consistent d.
Proof.
  induction 1 as [|d now req pending calls _ IH].
  - unfold consistent; simpl.
    split; [|split; [|split; [|split]]]; try constructor. discriminate.
  - unfold store.
    destruct (route_issues now req {| db := d; faults := pending; trace := calls |})
      as (qs & Hqs & ->).
    apply run_statements_consistent; assumption.
Qed.

(** X5.  In every table the service can reach, emails are unique, ids are
    unique, and every id was drawn from the sequence ([1 <= id <= last
    value]). *)
Theorem reachable_accounts_are_unique (d : Database) :
  reachable d ->
  NoDup (map users.email (rows d))
  /\ NoDup (map id (rows d))
  /\ Forall (fun u => 1 <= id u <= users_id_seq d) (rows d).
Proof.
  intros Hd. destruct (reachable_consistent d Hd) as (He & Hi & _ & Hb & _).
  split; [exact He | split; [exact Hi | exact Hb]].
Qed.

(** X6.  In every reachable table a row stores either no session (token and
    expiry both [NULL]) or, together with an expiry that is not [NULL], a
    refresh token minted for that row's own id. *)
Theorem reachable_sessions_are_minted (d : Database) (u : User) :
  reachable d -> In u (rows d) ->
  (refresh_token u = None /\ refresh_token_expires u = None)
  \/ exists issued expires,
       refresh_token u = Some (TokenManager.generateRefreshToken issued (id u))
       /\ refresh_token_expires u = Some expires.
Proof.
  intros Hd Hu. destruct (reachable_consistent d Hd) as (_ & _ & _ & _ & Hs).
  rewrite Forall_forall in Hs.
  destruct (Hs u Hu) as [Hnone|(issued & Htoken & Hexpires)].
  - left. exact Hnone.
  - right. exists issued. eexists. split; [exact Htoken | exact Hexpires].
Qed.

(** ** Refresh and login on a healthy connection, characterised *)

Lemma refresh_succeeds now token d calls decoded u :
  TokenManager.verifyRefreshToken now token = Normal decoded ->
  find_by_id (jwt.userId decoded) d = Some u ->
  refresh_token u = Some token ->
  now <= Date (refresh_token_expires u) ->
  AuthController.refreshToken now token {| db := d; faults := []; trace := calls |}
  = (Normal (refresh_success now u),
     {| db := committed now
                (UpdateRefreshToken (TokenManager.generateRefreshToken now (id u))
                                    (now + 7 * 24 * 60 * 60 * 1000) (id u)) d;
        faults := [];
        trace := EvQuery (UpdateRefreshToken (TokenManager.generateRefreshToken now (id u))
                                             (now + 7 * 24 * 60 * 60 * 1000) (id u))
                 :: EvQuery (SelectSessionById (jwt.userId decoded)) :: calls |}).
Proof.
  intros Hv Hu Hstored Hintime. destruct (find_by_id_rows _ _ _ Hu) as [rest Hrest].
  unfold AuthController.refreshToken, try_catch, bind, lift, pool_query.
  rewrite Hv. cbn [faults db trace exec fst snd tl]. rewrite Hrest.
  rewrite (proj2 (stored_token_eqb_eq (refresh_token u) token) Hstored).
  destruct (Z.gtb_spec now (Date (refresh_token_expires u))); [lia|].
  reflexivity.
Qed.

Lemma login_succeeds now e p d calls u :
  find_by_email e d = Some u ->
  locked_at now u = false ->
  bcrypt.compare p (password_hash u) = true ->
  AuthController.login now e p {| db := d; faults := []; trace := calls |}
  = (Normal (login_success now u),
     {| db := committed now
                (UpdateRefreshToken (TokenManager.generateRefreshToken now (id u))
                                    (now + 7 * 24 * 60 * 60 * 1000) (id u))
                (committed now (ResetFailedAttempts (id u)) d);
        faults := [];
        trace := EvQuery (UpdateRefreshToken (TokenManager.generateRefreshToken now (id u))
                                             (now + 7 * 24 * 60 * 60 * 1000) (id u))
                 :: EvQuery (ResetFailedAttempts (id u))
                 :: EvBcryptCompare p (password_hash u)
                 :: EvQuery (SelectCredentialsByEmail e) :: calls |}).
Proof.
  intros Hu Hlock Hp. destruct (find_by_email_rows _ _ _ Hu) as [rest Hrest].
  unfold AuthController.login, try_catch, bind, pool_query, bcrypt_compare.
  cbn [faults db trace exec fst snd tl]. rewrite Hrest.
  fold (locked_at now u). rewrite Hlock.
  cbn [record faults db trace fst snd]. rewrite Hp. reflexivity.
Qed.

(** X7.  On a healthy connection a refresh succeeds exactly when the
    presented token verifies as a refresh token, the first row under the
    token's [userId] stores exactly that token, and the stored expiry has not
    passed; nothing else is consulted (in particular not the lockout, so a
    locked account still refreshes).  It then answers 200 with a pair minted
    at [now] for the row's id and email. *)
Theorem refresh_succeeds_exactly
    (now : Z) (token : jwt.Token) (d : Database) (calls : list Event) :
  let r := AuthController.refreshToken now token {| db := d; faults := []; trace := calls |} in
  (success (answer r) = true
   <-> exists decoded u,
         TokenManager.verifyRefreshToken now token = Normal decoded
         /\ find_by_id (jwt.userId decoded) d = Some u
         /\ refresh_token u = Some token
         /\ now <= Date (refresh_token_expires u))
  /\ (forall decoded u,
         TokenManager.verifyRefreshToken now token = Normal decoded ->
         find_by_id (jwt.userId decoded) d = Some u ->
         refresh_token u = Some token ->
         now <= Date (refresh_token_expires u) ->
         answer r = refresh_success now u).
Proof.
  intros r. split; [split|].
  - subst r.
    unfold AuthController.refreshToken, try_catch, bind, lift, pool_query, answer.
    destruct (TokenManager.verifyRefreshToken now token) as [decoded|ex] eqn:Hv;
      [|discriminate].
    cbn [faults db trace exec fst snd tl].
    destruct (filter (where_id (jwt.userId decoded)) (rows d)) as [|u rest] eqn:Hrows;
      [discriminate|].
    destruct (option_eqb jwt.token_eqb (refresh_token u) (Some token)) eqn:Hstored;
      [|discriminate].
    destruct (Z.gtb_spec now (Date (refresh_token_expires u))) as [Hlate|Hintime];
      [discriminate|].
    intros _. exists decoded, u. split; [reflexivity|]. split.
    { unfold find_by_id. rewrite Hrows. reflexivity. }
    split; [apply stored_token_eqb_eq; exact Hstored | exact Hintime].
  - intros (decoded & u & Hv & Hu & Hstored & Hintime). subst r.
    rewrite (refresh_succeeds now token d calls decoded u Hv Hu Hstored Hintime).
    reflexivity.
  - intros decoded u Hv Hu Hstored Hintime. subst r.
    rewrite (refresh_succeeds now token d calls decoded u Hv Hu Hstored Hintime).
    reflexivity.
Qed.

Lemma locked_at_false_expired now u : locked_at now u = false <-> lock_expired now u.
Proof.
  unfold locked_at, lock_expired. split.
  - intros H l Hl. rewrite Hl in H. apply Z.ltb_ge in H. exact H.
  - intros H. destruct (account_locked_until u) as [l|]; [|reflexivity].
    apply Z.ltb_ge. apply H. reflexivity.
Qed.

Lemma find_by_email_In e d u : find_by_email e d = Some u -> In u (rows d).
Proof.
  intros H. destruct (find_by_email_rows _ _ _ H) as [rest Hrest].
  assert (Hin : In u (filter (where_email e) (rows d))) by (rewrite Hrest; left; reflexivity).
  apply filter_In in Hin. tauto.
Qed.


Lemma never_stores_after_update T0 T expires i rows0 seq :
  T <> T0 ->
  never_stores T0 i
    {| rows := update_where_id i (set_session (Some T) expires) rows0;
       users_id_seq := seq |}.
Proof.
  intros Hdiff. unfold never_stores, update_where_id; simpl.
  apply Forall_map. apply Forall_forall. intros v _. simpl.
  destruct (where_id i v) eqn:Hv; simpl.
  - intros _ [= HT]. exact (Hdiff HT).
  - unfold where_id in Hv. apply Z.eqb_neq in Hv. intros Hid. contradiction.
Qed.

(** X11.  A successful login revokes whatever refresh token the account had:
    afterwards every refresh presenting a token of that account other than
    the one just issued is refused as an invalid token, at every instant. *)
Theorem login_replaces_session
    (now : Z) (e p : string) (d : Database) (calls : list Event) (u : User)
    (payload : jwt.Claims) (signature : string) :
  find_by_email e d = Some u ->
  lock_expired now u ->
  bcrypt.compare p (password_hash u) = true ->
  jwt.userId payload = id u ->
  jwt.JWT payload signature <> TokenManager.generateRefreshToken now (id u) ->
  let r := AuthController.login now e p {| db := d; faults := []; trace := calls |} in
  success (answer r) = true
  /\ forall now' pending calls',
       InvalidToken
         (answer (AuthController.refreshToken now' (jwt.JWT payload signature)
                    {| db := store r; faults := pending; trace := calls' |})).
Proof.
  intros Hu Hlock Hp Hsubject Hdiff r.
  apply locked_at_false_expired in Hlock.
  subst r. rewrite (login_succeeds now e p d calls u Hu Hlock Hp).
  split; [reflexivity|]. intros now' pending calls'.
  apply refresh_refused_never_stored. rewrite Hsubject.
  unfold store, committed; cbn [snd db exec rows users_id_seq].
  apply never_stores_after_update. congruence.
Qed.

(** ** Registration *)

Lemma find_by_email_none_rows e d :
  find_by_email e d = None -> filter (where_email e) (rows d) = [].
Proof.
  unfold find_by_email. destruct (filter (where_email e) (rows d)); [reflexivity|discriminate].
Qed.

Lemma update_where_id_other i f rows0 :
  Forall (fun u => id u <> i) rows0 -> update_where_id i f rows0 = rows0.
Proof.
  unfold update_where_id. induction 1 as [|u rest Hu _ IH]; simpl; [reflexivity|].
  rewrite IH. unfold where_id. destruct (Z.eqb_spec (id u) i); [contradiction|reflexivity].
Qed.

Lemma register_succeeds now salt e p d calls :
  find_by_email e d = None ->
  let i := users_id_seq d + 1 in
  let passwordHash := bcrypt.hash p 12 salt in
  AuthController.register now salt e p {| db := d; faults := []; trace := calls |}
  = (Normal {| status := 201; success := true;
               message := Some "User registered successfully";
               data := Some (RegisteredUser i e now
                               (TokenManager.generateTokenPair now i e)) |},
     {| db := {| rows := update_where_id i
                           (set_session (Some (TokenManager.generateRefreshToken now i))
                                        (Some (now + 7 * 24 * 60 * 60 * 1000)))
                           (rows d ++ [new_user i e passwordHash now]);
                 users_id_seq := i |};
        faults := [];
        trace := EvQuery (UpdateRefreshToken (TokenManager.generateRefreshToken now i)
                                             (now + 7 * 24 * 60 * 60 * 1000) i)
                 :: EvQuery (InsertUser e passwordHash)
                 :: EvBcryptHash p 12
                 :: EvQuery (SelectIdByEmail e) :: calls |}).
Proof.
  intros Hnone i passwordHash. pose proof (find_by_email_none_rows _ _ Hnone) as Hrows.
  unfold AuthController.register, try_catch, bind, pool_query, bcrypt_hash.
  cbn [faults db trace exec fst snd tl]. rewrite Hrows.
  cbn [List.length Z.of_nat Z.ltb Z.compare record faults db trace fst snd tl exec].
  rewrite (filter_nil_existsb _ _ Hrows). reflexivity.
Qed.


(** X13.  Registering an email that already has an account answers 409
    "User already exists" after the SELECT alone: the password is never
    hashed, nothing is inserted, and the table is unchanged. *)
Theorem register_conflict
    (now : Z) (salt e p : string) (d : Database) (calls : list Event) (u : User) :
  find_by_email e d = Some u ->
  let r := AuthController.register now salt e p {| db := d; faults := []; trace := calls |} in
  answer r = Conflict
  /\ store r = d
  /\ trace (snd r) = EvQuery (SelectIdByEmail e) :: calls.
Proof.
  intros Hu r. destruct (find_by_email_rows _ _ _ Hu) as [rest Hrest]. subst r.
  unfold AuthController.register, try_catch, bind, pool_query, answer, store.
  cbn [faults db trace exec fst snd tl]. rewrite Hrest.
  repeat split.
Qed.

(** X14.  Registration composes with login: when [bcrypt.compare] accepts a
    password against the hash [bcrypt.hash] made of it, a login with the
    registered email and password succeeds right after the registration (and
    at any later instant), for the id the registration answered. *)
Theorem register_then_login
    (now now' : Z) (salt e p : string) (d : Database) (calls : list Event) :
  find_by_email e d = None ->
  bcrypt.compare p (bcrypt.hash p 12 salt) = true ->
  let r := AuthController.register now salt e p {| db := d; faults := []; trace := calls |} in
  let i := users_id_seq d + 1 in
  success (answer r) = true
  /\ data (answer (AuthController.login now' e p (snd r)))
     = Some (LoggedInUser i e (TokenManager.generateTokenPair now' i e)).
Proof.
  intros Hnone Hp r i. subst r i.
  rewrite (register_succeeds now salt e p d calls Hnone).
  split; [reflexivity|]. cbn [snd].
  set (i := users_id_seq d + 1).
  set (u := set_session (Some (TokenManager.generateRefreshToken now i))
                        (Some (now + 7 * 24 * 60 * 60 * 1000))
                        (new_user i e (bcrypt.hash p 12 salt) now)).
  assert (Hu : find_by_email e
                 {| rows := update_where_id i
                              (set_session (Some (TokenManager.generateRefreshToken now i))
                                           (Some (now + 7 * 24 * 60 * 60 * 1000)))
                              (rows d ++ [new_user i e (bcrypt.hash p 12 salt) now]);
                    users_id_seq := i |} = Some u).
  { unfold find_by_email; cbn [rows].
    rewrite filter_update_where_id by reflexivity.
    rewrite filter_app, (find_by_email_none_rows _ _ Hnone). simpl.
    unfold where_email at 1; simpl. rewrite String.eqb_refl. simpl.
    unfold where_id; simpl. rewrite Z.eqb_refl. reflexivity. }
  rewrite (login_succeeds now' e p _ _ u Hu eq_refl Hp). reflexivity.
Qed.

(** ** Persistence failures *)

(** X15.  When the first statement of an operation fails, the operation
    stops there: register and login answer 500 before any password is hashed
    or compared, logout answers 500, and refresh answers 401 "Token refresh
    failed" (a persistence failure during refresh looks like an invalid
    token); the table is unchanged in every case. *)
Theorem first_statement_failure
    (now : Z) (d : Database) (pending : list bool) (calls : list Event) :
  let w := {| db := d; faults := true :: pending; trace := calls |} in
  (forall salt e p,
      let r := AuthController.register now salt e p w in
      answer r = failure 500 "Registration failed"
      /\ store r = d /\ trace (snd r) = EvQuery (SelectIdByEmail e) :: calls)
  /\ (forall e p,
      let r := AuthController.login now e p w in
      answer r = failure 500 "Login failed"
      /\ store r = d /\ trace (snd r) = EvQuery (SelectCredentialsByEmail e) :: calls)
  /\ (forall token decoded,
      TokenManager.verifyRefreshToken now token = Normal decoded ->
      let r := AuthController.refreshToken now token w in
      answer r = failure 401 "Token refresh failed" /\ store r = d)
  /\ (forall user,
      let r := AuthController.logout now user w in
      answer r = failure 500 "Logout failed" /\ store r = d).
Proof.
  intros w. split; [|split; [|split]].
  - intros salt e p r. repeat split.
  - intros e p r. repeat split.
  - intros token decoded Hv r. subst r w.
    unfold AuthController.refreshToken, try_catch, bind, lift, pool_query, answer, store.
    rewrite Hv. repeat split.
  - intros user r. repeat split.
Qed.

(** X16.  Login is not a transaction either: with a correct password, when
    the statement that stores the new refresh token fails, the login answers
    500 "Login failed" although the counter is already reset, the lock
    cleared and [last_login] stamped; the session columns keep their previous
    values, so the previous refresh token stays the stored one. *)
Theorem login_session_write_failure
    (now : Z) (e p : string) (d : Database) (pending : list bool) (calls : list Event)
    (u : User) :
  find_by_email e d = Some u ->
  lock_expired now u ->
  bcrypt.compare p (password_hash u) = true ->
  let r := AuthController.login now e p
             {| db := d; faults := false :: false :: true :: pending; trace := calls |} in
  answer r = failure 500 "Login failed"
  /\ store r = committed now (ResetFailedAttempts (id u)) d
  /\ find_by_email e (store r) = Some (set_lockout 0 None (Some now) u)
  /\ map session (rows (store r)) = map session (rows d).
Proof.
  intros Hu Hlock Hp r. apply locked_at_false_expired in Hlock.
  destruct (find_by_email_rows _ _ _ Hu) as [rest Hrest].
  assert (Hr : r = (Normal (failure 500 "Login failed"),
                    {| db := committed now (ResetFailedAttempts (id u)) d;
                       faults := pending;
                       trace := EvQuery (UpdateRefreshToken
                                           (TokenManager.generateRefreshToken now (id u))
                                           (now + 7 * 24 * 60 * 60 * 1000) (id u))
                                :: EvQuery (ResetFailedAttempts (id u))
                                :: EvBcryptCompare p (password_hash u)
                                :: EvQuery (SelectCredentialsByEmail e) :: calls |})).
  { subst r.
    unfold AuthController.login, try_catch, bind, pool_query, bcrypt_compare.
    cbn [faults db trace exec fst snd tl]. rewrite Hrest.
    fold (locked_at now u). rewrite Hlock.
    cbn [record faults db trace fst snd]. rewrite Hp. reflexivity. }
  rewrite Hr. unfold answer, store; cbn [fst snd db].
  split; [reflexivity|]. split; [reflexivity|]. split.
  - unfold committed; cbn [snd exec].
    apply (find_by_email_update e d u); [reflexivity | exact Hu].
  - unfold committed; cbn [snd exec rows].
    apply map_update_where_id. reflexivity.
Qed.

(** ** What the operations leave alone *)

Lemma committed_identity now q d :
  exists extra,
    map identity (rows (committed now q d)) = (map identity (rows d) ++ extra)%list.
Proof.
  unfold committed.
  destruct q; simpl;
    try (exists []; rewrite app_nil_r; try reflexivity;
         apply map_update_where_id; reflexivity).
  destruct (existsb (where_email e) (rows d)); simpl.
  - exists []. rewrite app_nil_r. reflexivity.
  - eexists. rewrite map_app. reflexivity.
Qed.

Lemma run_statements_identity now qs d :
  exists extra,
    map identity (rows (run_statements now qs d)) = (map identity (rows d) ++ extra)%list.
Proof.
  revert d. induction qs as [|q qs IH]; intros d; simpl.
  - exists []. rewrite app_nil_r. reflexivity.
  - destruct (IH (committed now q d)) as [extra2 E2].
    destruct (committed_identity now q d) as [extra1 E1].
    exists (extra1 ++ extra2)%list. rewrite E2, E1, app_assoc. reflexivity.
Qed.

(** X17.  No operation, under any persistence failures, deletes a row or
    changes the id, email, password hash, [created_at] or [updated_at] of an
    existing row: the table only grows at its end.  In particular
    [updated_at] is never touched by an update. *)
Theorem operations_keep_identity (now : Z) (req : Request) (w : World) :
  exists extra,
    map identity (rows (store (route now req w)))
    = (map identity (rows (db w)) ++ extra)%list.
Proof.
  unfold store. destruct (route_issues now req w) as (qs & _ & ->).
  apply run_statements_identity.
Qed.

Lemma committed_session_statement now q d :
  session_statement q ->
  map identity (rows (committed now q d)) = map identity (rows d)
  /\ map lockout (rows (committed now q d)) = map lockout (rows d).
Proof.
  unfold committed. destruct q; simpl; intros Hq; try contradiction;
    try (split; reflexivity); split; apply map_update_where_id; reflexivity.
Qed.

Lemma run_session_statements now qs d :
  Forall session_statement qs ->
  map identity (rows (run_statements now qs d)) = map identity (rows d)
  /\ map lockout (rows (run_statements now qs d)) = map lockout (rows d).
Proof.
  intros Hqs. revert d. induction Hqs as [|q qs Hq _ IH]; intros d; simpl.
  - split; reflexivity.
  - destruct (IH (committed now q d)) as [E1 E2].
    destruct (committed_session_statement now q d Hq) as [F1 F2].
    split; congruence.
Qed.

Lemma refresh_issues_session now token :
  issues now session_statement (AuthController.refreshToken now token).
Proof. unfold AuthController.refreshToken. repeat issues_step. Qed.

Lemma logout_route_issues_session now authorization :
  issues now session_statement (route now (PostLogout authorization)).
Proof. simpl. unfold AuthController.logout. repeat issues_step. Qed.

(** X18.  Refresh and logout, under any persistence failures, write the
    session columns only: the failure counter, the lock and [last_login] of
    every row are as before (neither operation unlocks or locks an account),
    and so are the identity columns. *)
Theorem refresh_and_logout_write_sessions_only
    (now : Z) (w : World) (token : jwt.Token) (authorization : Authorization) :
  (map lockout (rows (store (route now (PostRefresh token) w))) = map lockout (rows (db w))
   /\ map identity (rows (store (route now (PostRefresh token) w)))
      = map identity (rows (db w)))
  /\ (map lockout (rows (store (route now (PostLogout authorization) w)))
      = map lockout (rows (db w))
      /\ map identity (rows (store (route now (PostLogout authorization) w)))
         = map identity (rows (db w))).
Proof.
  unfold store. split.
  - destruct (refresh_issues_session now token w) as (qs & Hqs & E).
    simpl. rewrite E. destruct (run_session_statements now qs (db w) Hqs). tauto.
  - destruct (logout_route_issues_session now authorization w) as (qs & Hqs & E).
    rewrite E. destruct (run_session_statements now qs (db w) Hqs). tauto.
Qed.

(** X19.  A login that does not answer success, under any persistence
    failures, leaves every session as it was: failed attempts, lockouts
    included, never revoke the stored refresh token. *)
Theorem failed_login_keeps_sessions (now : Z) (e p : string) (w : World) :
  let r := AuthController.login now e p w in
  success (answer r) = false ->
  map session (rows (store r)) = map session (rows (db w)).
Proof.
  intros r Herr. pose proof (login_outcomes now e p w) as H. fold r in H. simpl in H.
  destruct H; try reflexivity; try discriminate Herr;
    unfold committed; cbn [snd exec rows]; apply map_update_where_id; reflexivity.
Qed.

(** ** Logout through the route *)

Lemma authenticate_minted now issued i e :
  now / 1000 < issued / 1000 + 900 ->
  authenticate now (Bearer (TokenManager.generateAccessToken issued i e))
  = inr {| jwt.userId := i; jwt.email := Some e; jwt.type := "access";
           jwt.iat := issued / 1000; jwt.exp := issued / 1000 + 900;
           jwt.iss := "secure-auth-api" |}.
Proof.
  intros Hnow. simpl.
  unfold TokenManager.verifyAccessToken, TokenManager.generateAccessToken.
  rewrite verify_sign. change (15 * 60) with 900.
  destruct (Z.geb_spec (now / 1000) (issued / 1000 + 900)); [lia|]. reflexivity.
Qed.

(** X20.  Logout revokes the refresh token only.  On a healthy connection,
    [POST /logout] with an access token that has not expired answers 200 and
    clears the session of the token's user; the same access token is still
    accepted afterwards, until its own expiry: [GET /me] answers the user's
    id and email, and a second [POST /logout] answers 200 again. *)
Theorem logout_keeps_access_token
    (issued now now2 : Z) (i : Z) (e : string) (d : Database) (calls : list Event) :
  now / 1000 < issued / 1000 + 900 ->
  now2 / 1000 < issued / 1000 + 900 ->
  let access := Bearer (TokenManager.generateAccessToken issued i e) in
  let r := route now (PostLogout access) {| db := d; faults := []; trace := calls |} in
  answer r = logout_success
  /\ (forall u, In u (rows (store r)) -> id u = i ->
      refresh_token u = None /\ refresh_token_expires u = None)
  /\ me now2 access = MeUser i (Some e)
  /\ answer (route now2 (PostLogout access) (snd r)) = logout_success.
Proof.
  intros Hnow Hnow2 access r. subst r access.
  unfold me. cbn [route]. rewrite !authenticate_minted by assumption.
  split; [reflexivity|]. split; [|split; reflexivity].
  intros u Hin Hid. exact (cleared_rows i d u Hin Hid).
Qed.

(** X21.  [POST /logout] without a valid access token never reaches the
    controller: the middleware answers 401 and no statement is sent, so the
    session stays.  This is the case for a missing header, for a refresh
    token used as bearer, and for the user's own access token once its 15
    minutes are over. *)
Theorem logout_needs_valid_access_token
    (now : Z) (w : World) (issued : Z) (i : Z) (e : string) :
  route now (PostLogout NoHeader) w = (Normal (failure 401 "No token provided"), w)
  /\ route now (PostLogout (Bearer (TokenManager.generateRefreshToken issued i))) w
     = (Normal (failure 401 "Invalid or expired token"), w)
  /\ (issued / 1000 + 900 <= now / 1000 ->
      route now (PostLogout (Bearer (TokenManager.generateAccessToken issued i e))) w
      = (Normal (failure 401 "Invalid or expired token"), w)).
Proof.
  split; [reflexivity|]. split.
  - cbn [route authenticate].
    unfold TokenManager.verifyAccessToken, TokenManager.generateRefreshToken,
      jwt.verify, jwt.sign.
    destruct (negb (_ =? _)%string); [reflexivity|].
    destruct (_ >=? _)%Z; reflexivity.
  - intros Hlate. cbn [route authenticate].
    unfold TokenManager.verifyAccessToken, TokenManager.generateAccessToken.
    rewrite verify_sign. change (15 * 60) with 900.
    destruct (Z.geb_spec (now / 1000) (issued / 1000 + 900)); [reflexivity | lia].
Qed.

(** X22.  Logout does not check that the user exists: for a [userId] with no
    row, it still answers 200 "Logout successful" and the table is
    unchanged. *)
Theorem logout_of_unknown_user
    (now : Z) (user : jwt.Claims) (d : Database) (calls : list Event) :
  Forall (fun u => id u <> jwt.userId user) (rows d) ->
  let r := AuthController.logout now user {| db := d; faults := []; trace := calls |} in
  answer r = logout_success /\ store r = d.
Proof.
  intros Hnone r. split; [reflexivity|]. subst r.
  unfold store, AuthController.logout, try_catch, bind, pool_query.
  cbn [faults db trace exec fst snd tl].
  rewrite (update_where_id_other _ _ _ Hnone). destruct d; reflexivity.
Qed.

(** ** The sanitizer's string functions *)

Lemma occurs_append c s t : occurs c (s ++ t) = occurs c s || occurs c t.
Proof.
  induction s as [|a s IH]; simpl; [reflexivity|].
  rewrite IH, orb_assoc. reflexivity.
Qed.

Lemma length_append s t :
  String.length (s ++ t) = (String.length s + String.length t)%nat.
Proof. induction s as [|a s IH]; simpl; [reflexivity | rewrite IH; reflexivity]. Qed.

Ltac escape_cases a :=
  destruct (Ascii.eqb a "&") eqn:?; simpl;
  [|destruct (Ascii.eqb a "<") eqn:?; simpl;
    [|destruct (Ascii.eqb a ">") eqn:?; simpl;
      [|destruct (Ascii.eqb a "034") eqn:?; simpl;
        [|destruct (Ascii.eqb a "'") eqn:?; simpl;
          [|destruct (Ascii.eqb a "/") eqn:?; simpl]]]]].

Lemma escapeHtml_cons a s :
  escapeHtml (String a s) = escape_char a ++ escapeHtml s.
Proof.
  unfold escapeHtml, escape_char. simpl.
  escape_cases a; reflexivity.
Qed.

(** X23.  The six replacements of [escapeHtml], applied one after the other
    to the whole string, amount to a single pass that rewrites each of the
    six characters (ampersand, less-than, greater-than, double quote, single
    quote, slash) to its entity and copies every other character: no
    replacement rewrites what an earlier one wrote. *)
Theorem escapeHtml_is_one_pass (s : string) :
  escapeHtml s = flat_map_string escape_char s.
Proof.
  induction s as [|a s IH]; [reflexivity|].
  rewrite escapeHtml_cons, IH. reflexivity.
Qed.

Lemma escape_char_clean c a :
  c = "<"%char \/ c = ">"%char \/ c = "034"%char \/ c = "'"%char \/ c = "/"%char ->
  occurs c (escape_char a) = false.
Proof.
  unfold escape_char.
  intros [->|[->|[->|[->| ->]]]]; escape_cases a; try reflexivity;
    rewrite orb_false_r; assumption.
Qed.

(** X24.  Whatever the input, the string [escapeHtml] returns has no
    occurrence of [<], [>], the double quote, the single quote or [/]. *)
Theorem escapeHtml_output_is_clean (s : string) (c : ascii) :
  c = "<"%char \/ c = ">"%char \/ c = "034"%char \/ c = "'"%char \/ c = "/"%char ->
  occurs c (escapeHtml s) = false.
Proof.
  intros Hc. induction s as [|a s IH]; [reflexivity|].
  rewrite escapeHtml_cons, occurs_append, IH, (escape_char_clean c a Hc). reflexivity.
Qed.

Lemma escape_char_length a :
  (1 <= String.length (escape_char a))%nat
  /\ (String.length (escape_char a) = 1%nat <-> special a = false).
Proof.
  unfold escape_char, special.
  escape_cases a; split; try lia; split; try discriminate; try reflexivity;
    intros H; simpl in H; lia.
Qed.

Lemma escape_char_unspecial a : special a = false -> escape_char a = String a EmptyString.
Proof.
  unfold escape_char, special. escape_cases a; try discriminate. reflexivity.
Qed.

Lemma escapeHtml_length s : (String.length s <= String.length (escapeHtml s))%nat.
Proof.
  induction s as [|a s IH]; [simpl; lia|].
  rewrite escapeHtml_cons, length_append. simpl.
  destruct (escape_char_length a) as [H1 _]. lia.
Qed.

Lemma escapeHtml_fixes s : escapeHtml s = s <-> has_special s = false.
Proof.
  induction s as [|a s IH]; [simpl; tauto|].
  rewrite escapeHtml_cons. simpl. rewrite orb_false_iff. split.
  - intros H.
    assert (Hlen : (String.length (escape_char a) + String.length (escapeHtml s)
                    = S (String.length s))%nat).
    { rewrite <- length_append, H. reflexivity. }
    pose proof (escapeHtml_length s) as Hs.
    destruct (escape_char_length a) as [H1 Hiff].
    assert (Ha : special a = false) by (apply Hiff; lia).
    split; [exact Ha|]. apply IH.
    rewrite (escape_char_unspecial a Ha) in H. simpl in H. congruence.
  - intros [Ha Hs]. rewrite (escape_char_unspecial a Ha). simpl.
    f_equal. apply IH. exact Hs.
Qed.

Lemma escape_char_special a : special a = true -> has_special (escape_char a) = true.
Proof.
  unfold escape_char, special. escape_cases a; try reflexivity. discriminate.
Qed.

Lemma has_special_append s t : has_special (s ++ t) = has_special s || has_special t.
Proof.
  induction s as [|a s IH]; simpl; [reflexivity|].
  rewrite IH, orb_assoc. reflexivity.
Qed.

Lemma has_special_escapeHtml s : has_special (escapeHtml s) = has_special s.
Proof.
  induction s as [|a s IH]; [reflexivity|].
  rewrite escapeHtml_cons, has_special_append, IH. simpl. f_equal.
  destruct (special a) eqn:Ha.
  - apply escape_char_special. exact Ha.
  - rewrite (escape_char_unspecial a Ha). simpl. rewrite Ha. reflexivity.
Qed.

(** X25.  [escapeHtml] returns its input unchanged exactly when the input has
    none of the six characters it rewrites (so a JWT, made of base64url
    characters and dots, passes through untouched), it never shortens a
    string, and it is not idempotent: escaping twice equals escaping once
    only for such inputs, because the ampersand of an entity is escaped
    again. *)
Theorem escapeHtml_changes_exactly_special_input (s : string) :
  (escapeHtml s = s <-> has_special s = false)
  /\ (String.length s <= String.length (escapeHtml s))%nat
  /\ (escapeHtml (escapeHtml s) = escapeHtml s <-> has_special s = false).
Proof.
  split; [apply escapeHtml_fixes|]. split; [apply escapeHtml_length|].
  rewrite escapeHtml_fixes, has_special_escapeHtml. tauto.
Qed.

Lemma escape_char_nonempty a : escape_char a <> EmptyString.
Proof. unfold escape_char. escape_cases a; discriminate. Qed.

Lemma eqb_true_eq a c : Ascii.eqb a c = true -> a = c.
Proof. apply Ascii.eqb_eq. Qed.

Lemma eqb_false_neq a c : Ascii.eqb a c = false -> a <> c.
Proof. apply Ascii.eqb_neq. Qed.

Lemma escape_char_prefix a1 a2 x y :
  escape_char a1 ++ x = escape_char a2 ++ y -> a1 = a2 /\ x = y.
Proof.
  unfold escape_char.
  escape_cases a1; escape_cases a2; intros H;
    repeat match goal with
           | E : Ascii.eqb _ _ = true |- _ => apply eqb_true_eq in E; subst
           end;
    try (split; congruence);
    try discriminate H;
    try (exfalso; injection H as H0 _;
         repeat match goal with
                | E : Ascii.eqb _ _ = false |- _ => apply eqb_false_neq in E
                end; congruence).
Qed.

(** X26.  [escapeHtml] is injective: two different strings never escape to
    the same string, so the passwords and emails that reach the controller
    are told apart exactly as the submitted ones are. *)
Theorem escapeHtml_injective (s t : string) :
  escapeHtml s = escapeHtml t -> s = t.
Proof.
  revert t. induction s as [|a s IH]; intros [|b t] H.
  - reflexivity.
  - rewrite escapeHtml_cons in H. simpl in H.
    destruct (escape_char b ++ escapeHtml t) eqn:E; [|discriminate H].
    destruct (escape_char b) eqn:Eb; [exact (False_ind _ (escape_char_nonempty b Eb))|].
    discriminate E.
  - rewrite escapeHtml_cons in H. simpl in H.
    destruct (escape_char a) eqn:Ea; [exact (False_ind _ (escape_char_nonempty a Ea))|].
    discriminate H.
  - rewrite !escapeHtml_cons in H.
    destruct (escape_char_prefix a b _ _ H) as [-> Hrest].
    f_equal. apply IH. exact Hrest.
Qed.

(** X27.  The key [sanitizeObject] stores a property under never has a dot,
    but it can still begin with [$]: the pattern [/^\$/] removes one leading
    [$] only, and it is tried before the dots are removed, so [$$k] and
    [.$k] both become [$] followed by [k] without its dots. *)
Theorem sanitizedKey_removes_dots_and_one_dollar (key : string) :
  occurs "." (sanitizedKey key) = false
  /\ sanitizedKey (String "$" (String "$" key)) = String "$" (replace_all "." "" key)
  /\ sanitizedKey (String "." (String "$" key)) = String "$" (replace_all "." "" key)
  /\ (occurs "." key = false ->
      sanitizedKey (String "$" key) = key).
Proof.
  assert (Hdots : forall s, occurs "." (replace_all "." "" s) = false).
  { induction s as [|a s IH]; simpl; [reflexivity|].
    destruct (Ascii.eqb a ".") eqn:Ea; simpl; [exact IH|].
    rewrite Ea, IH. reflexivity. }
  assert (Hkeep : forall s, occurs "." s = false -> replace_all "." "" s = s).
  { induction s as [|a s IH]; simpl; [reflexivity|].
    destruct (Ascii.eqb a ".") eqn:Ea; simpl; [discriminate|].
    intros Hs. f_equal. apply IH. exact Hs. }
  split; [apply Hdots|]. split; [reflexivity|]. split; [reflexivity|].
  intros Hnone. unfold sanitizedKey. apply Hkeep. exact Hnone.
Qed.

(** ** The failure transition *)


(** X29.  A wrong password whose counter update fails is not counted: the
    login answers 500 "Login failed" instead of [InvalidCredentials] and the
    table is unchanged. *)
Theorem uncounted_failed_attempt
    (now : Z) (e p : string) (d : Database) (pending : list bool) (calls : list Event)
    (u : User) :
  find_by_email e d = Some u ->
  lock_expired now u ->
  bcrypt.compare p (password_hash u) = false ->
  let r := AuthController.login now e p
             {| db := d; faults := false :: true :: pending; trace := calls |} in
  answer r = failure 500 "Login failed" /\ store r = d.
Proof.
  intros Hu Hlock Hp r. apply locked_at_false_expired in Hlock.
  destruct (find_by_email_rows _ _ _ Hu) as [rest Hrest]. subst r.
  unfold AuthController.login, try_catch, bind, pool_query, bcrypt_compare, answer, store.
  cbn [faults db trace exec fst snd tl]. rewrite Hrest.
  fold (locked_at now u). rewrite Hlock.
  cbn [record faults db trace fst snd]. rewrite Hp. split; reflexivity.
Qed.

(** ** The deployed login *)

Lemma parsed_utc (u : User) : Deployed.parsed (zone := utc) u = u.
Proof.
  destruct u as [i e h token expires attempts lock last created updated].
  unfold Deployed.parsed; simpl.
  destruct expires, lock; reflexivity.
Qed.

Lemma written_utc (q : Query) : Deployed.written (zone := utc) q = q.
Proof. destruct q; simpl; try reflexivity. destruct lockUntil; reflexivity. Qed.

Lemma driver_query_utc now q w :
  Deployed.out_of_range q = false ->
  Deployed.driver_query (zone := utc) now q w = pool_query now q w.
Proof.
  intros Hrange. unfold Deployed.driver_query. rewrite Hrange, written_utc.
  destruct (pool_query now q w) as [[result|ex] w']; [|reflexivity].
  f_equal. f_equal. rewrite (map_ext _ (fun u => u) parsed_utc). apply map_id.
Qed.

Lemma select_result now e w result w' :
  pool_query now (SelectCredentialsByEmail e) w = (Normal result, w') ->
  result = filter (where_email e) (rows (db w)).
Proof.
  unfold pool_query. destruct (faults w) as [|[|] pending]; simpl; congruence.
Qed.

(** With timestamps that read back as written, all clock reads of the
    request at one instant, and counters whose successor fits the [INTEGER]
    column, the deployed login is [AuthController.login]: same completion,
    same table, same trace, under any persistence failures. *)
Lemma deployed_login_at_one_instant now e p w :
  Forall (fun u => Deployed.INT4_MIN <= failed_login_attempts u + 1 <= Deployed.INT4_MAX)
         (rows (db w)) ->
  Deployed.login (zone := utc) (Deployed.at_instant now) e p w
  = AuthController.login now e p w.
Proof.
  intros Hrange.
  unfold Deployed.login, AuthController.login, try_catch, bind.
  cbn [Deployed.db_now Deployed.lock_check Deployed.lock_start Deployed.access_iat
       Deployed.refresh_iat Deployed.expiry_base Deployed.at_instant].
  rewrite driver_query_utc by reflexivity.
  destruct (pool_query now (SelectCredentialsByEmail e) w) as [[result|ex] w1] eqn:Hq;
    [|reflexivity].
  destruct result as [|user rest]; [reflexivity|].
  assert (Huser : Deployed.INT4_MIN <= failed_login_attempts user + 1 <= Deployed.INT4_MAX).
  { pose proof (select_result now e w _ _ Hq) as Hres.
    assert (Hin : In user (filter (where_email e) (rows (db w))))
      by (rewrite <- Hres; left; reflexivity).
    apply filter_In in Hin. destruct Hin as [Hin _].
    rewrite Forall_forall in Hrange. exact (Hrange user Hin). }
  destruct (match account_locked_until user with
            | Some lockedUntil => (now <? lockedUntil)%Z
            | None => false
            end); [reflexivity|].
  unfold bcrypt_compare.
  destruct (bcrypt.compare p (password_hash user)); cbn [negb fst snd].
  - rewrite driver_query_utc by reflexivity.
    destruct (pool_query now (ResetFailedAttempts (id user))
                (record (EvBcryptCompare p (password_hash user)) w1))
      as [[result2|ex2] w2]; [|reflexivity].
    rewrite driver_query_utc by reflexivity. reflexivity.
  - rewrite driver_query_utc; [reflexivity|].
    unfold Deployed.out_of_range. apply orb_false_iff. split.
    + apply Z.ltb_ge. tauto.
    + rewrite Z.gtb_ltb. apply Z.ltb_ge. tauto.
Qed.

(** Likewise for the refresh: with timestamps that read back as written and
    all clock reads at one instant, the deployed refresh is
    [AuthController.refreshToken]. *)
Lemma deployed_refresh_at_one_instant now token w :
  Deployed.refreshToken (zone := utc) (Deployed.refresh_at_instant now) token w
  = AuthController.refreshToken now token w.
Proof.
  unfold Deployed.refreshToken, AuthController.refreshToken, try_catch, bind.
  cbn [Deployed.verify_at Deployed.refresh_db_now Deployed.expiry_check
       Deployed.new_access_iat Deployed.new_refresh_iat Deployed.new_expiry_base
       Deployed.refresh_at_instant].
  destruct (lift (TokenManager.verifyRefreshToken now token) w) as [[decoded|ex] w0];
    [|reflexivity].
  rewrite driver_query_utc by reflexivity.
  destruct (pool_query now (SelectSessionById (jwt.userId decoded)) w0)
    as [[result|ex] w1]; [|reflexivity].
  destruct result as [|user rest]; [reflexivity|].
  destruct (negb (option_eqb jwt.token_eqb (refresh_token user) (Some token))
            || (now >? Date (refresh_token_expires user))%Z); [reflexivity|].
  rewrite driver_query_utc by reflexivity. reflexivity.
Qed.

(** X30.  [failed_login_attempts] is an [INTEGER] column: on an account whose
    counter is 2147483647 and whose lock, as read back, is not in force, a
    wrong password answers 500 "Login failed", because the UPDATE of the
    counter is rejected, and the table is unchanged: the attempt is neither
    counted nor is the lock renewed.  This holds in every time zone and for
    every clock. *)
Theorem counter_at_integer_maximum
    {zone : Deployed.TimeZone} (clock : Deployed.LoginClock) (e p : string)
    (d : Database) (calls : list Event) (u : User) :
  find_by_email e d = Some u ->
  failed_login_attempts u = 2147483647 ->
  (forall stored, account_locked_until u = Some stored ->
                  Deployed.from_local stored <= Deployed.lock_check clock) ->
  bcrypt.compare p (password_hash u) = false ->
  let r := Deployed.login clock e p {| db := d; faults := []; trace := calls |} in
  answer r = failure 500 "Login failed" /\ store r = d.
Proof.
  intros Hu Hmax Hlock Hp r. destruct (find_by_email_rows _ _ _ Hu) as [rest Hrest].
  subst r.
  unfold Deployed.login, try_catch, bind, Deployed.driver_query, pool_query,
    bcrypt_compare, answer, store.
  cbn [Deployed.out_of_range Deployed.written faults db trace exec fst snd tl].
  rewrite Hrest. cbn [map Deployed.parsed account_locked_until password_hash
                      failed_login_attempts id].
  assert (Htest : match option_map Deployed.from_local (account_locked_until u) with
                  | Some lockedUntil => (Deployed.lock_check clock <? lockedUntil)%Z
                  | None => false
                  end = false).
  { destruct (account_locked_until u) as [stored|]; [|reflexivity]. simpl.
    apply Z.ltb_ge. apply Hlock. reflexivity. }
  rewrite Htest. cbn [record faults db trace fst snd]. rewrite Hp, Hmax.
  split; reflexivity.
Qed.

End Properties.

(** * The theorems on concrete inputs *)

Section Reference.
#[local] Existing Instance tagging_mac.
#[local] Existing Instance plain_bcrypt.
#[local] Existing Instance test_secrets.

Lemma five_failed_logins_lock_account_witness :
  let e := "a@x.com" in
  let r1 := AuthController.login 0 e "wrong" (healthy alice_db) in
  let r2 := AuthController.login 1000 e "wrong" (snd r1) in
  let r3 := AuthController.login 2000 e "wrong" (snd r2) in
  let r4 := AuthController.login 3000 e "wrong" (snd r3) in
  let r5 := AuthController.login 4000 e "wrong" (snd r4) in
  map answer [r1; r2; r3; r4; r5]
  = [InvalidCredentials; InvalidCredentials; InvalidCredentials;
     InvalidCredentials; InvalidCredentials]
  /\ answer (AuthController.login 5000 e "Secur3!Pass" (snd r5)) = AccountLocked.
Proof.
  intros e r1 r2 r3 r4 r5.
  assert (Hlock : lock_expired 0 alice) by (intros l Hl; discriminate Hl).
  assert (Hwrong : Forall (fun p => bcrypt.compare p (password_hash alice) = false)
                          ["wrong"; "wrong"; "wrong"; "wrong"; "wrong"])
    by (repeat constructor).
  destruct (five_failed_logins_lock_account alice_db e alice
              "wrong" "wrong" "wrong" "wrong" "wrong" 0 1000 2000 3000 4000
              eq_refl eq_refl Hlock Hwrong) as (Hanswers & _ & _ & Hsixth).
  split; [exact Hanswers|]. apply Hsixth. lia.
Defined.

Lemma refresh_tokens_are_single_use_witness :
  let T1 := TokenManager.generateRefreshToken 0 1 in
  let r := AuthController.refreshToken 5000 T1 (healthy alice_session_db) in
  success (answer r) = true
  /\ InvalidToken (answer (AuthController.refreshToken 6000 T1
                             {| db := store r; faults := []; trace := [] |})).
Proof.
  intros T1 r.
  assert (Hok : success (answer r) = true) by (vm_compute; reflexivity).
  split; [exact Hok|].
  destruct (refresh_tokens_are_single_use 5000 T1 (healthy alice_session_db) Hok)
    as (u & T2 & Hu & _ & _ & _ & HT2 & _ & Hlater).
  apply Hlater. rewrite HT2.
  assert (Hid : id u = 1).
  { apply find_by_id_rows in Hu. destruct Hu as [rest Hrest].
    simpl in Hrest. destruct (where_id (id u) _) eqn:Hw in Hrest; [|discriminate].
    injection Hrest as <- _. reflexivity. }
  rewrite Hid. discriminate.
Defined.

Lemma successful_login_resets_lockout_witness :
  let r := AuthController.login 900000 "a@x.com" "Secur3!Pass" (healthy locked_alice_db) in
  success (answer r) = true
  /\ exists before after,
       find_by_email "a@x.com" locked_alice_db = Some before
       /\ find_by_email "a@x.com" (store r) = Some after
       /\ failed_login_attempts after = 0
       /\ account_locked_until after = None.
Proof.
  intros r.
  assert (Hok : success (answer r) = true) by (vm_compute; reflexivity).
  split; [exact Hok|].
  exact (successful_login_resets_lockout 900000 "a@x.com" "Secur3!Pass"
           (healthy locked_alice_db) Hok).
Defined.

Lemma logout_revokes_refresh_token_witness :
  let user := {| jwt.userId := 1; jwt.email := Some "a@x.com"; jwt.type := "access";
                 jwt.iat := 0; jwt.exp := 900; jwt.iss := "secure-auth-api" |} in
  let r := AuthController.logout 1000 user (healthy alice_session_db) in
  answer r = logout_success
  /\ InvalidToken (answer (AuthController.refreshToken 2000
                             (TokenManager.generateRefreshToken 0 1)
                             {| db := store r; faults := []; trace := [] |})).
Proof.
  intros user r.
  destruct (logout_revokes_refresh_token alice_session_db [] 1000 user)
    as (Hanswer & _ & _ & _ & _ & Hissued & _ & _).
  split; [exact Hanswer|]. exact (Hissued 0 2000 [] []).
Defined.

Lemma token_classes_do_not_cross_witness :
  jwt.verify 1000 (TokenManager.generateRefreshToken 0 1) JWT_SECRET
  = Throw (Error "invalid signature").
Proof.
  destruct (token_classes_do_not_cross 0 1000 1 "a@x.com")
    as (_ & _ & _ & _ & _ & _ & Hsignature).
  apply Hsignature. intros payload. unfold jwt.hmac_sha256, tagging_mac; simpl.
  discriminate.
Defined.

Lemma login_hides_accounts_unless_locked_witness :
  answer (AuthController.login 0 "nobody@x.com" "wrong" (healthy alice_db))
  = InvalidCredentials
  /\ fst (AuthController.login 0 "a@x.com" "wrong" (healthy alice_db))
     = fst (AuthController.login 0 "nobody@x.com" "wrong" (healthy alice_db)).
Proof.
  assert (Hlock : lock_expired 0 alice) by (intros l Hl; discriminate Hl).
  assert (Hp : bcrypt.compare "wrong" (password_hash alice) = false)
    by (vm_compute; reflexivity).
  destruct (login_hides_accounts_unless_locked
              alice_db alice_db 0 0 "nobody@x.com" "wrong" "a@x.com" "wrong"
              alice eq_refl eq_refl Hp) as (Hunknown & Hunlocked & _).
  split; [exact Hunknown | exact (proj2 (Hunlocked Hlock))].
Defined.

(** C6 fails on the code: while Alice's account is locked, a wrong password
    for her email answers 403 [AccountLocked], where the same call for an
    email without account answers 401 [InvalidCredentials]. *)
Lemma locked_account_is_told_apart :
  find_by_email "nobody@x.com" locked_alice_db = None
  /\ find_by_email "a@x.com" locked_alice_db = Some locked_alice
  /\ bcrypt.compare "wrong" (password_hash locked_alice) = false
  /\ answer (AuthController.login 1000 "nobody@x.com" "wrong" (healthy locked_alice_db))
     = InvalidCredentials
  /\ answer (AuthController.login 1000 "a@x.com" "wrong" (healthy locked_alice_db))
     = AccountLocked
  /\ answer (AuthController.login 1000 "a@x.com" "wrong" (healthy locked_alice_db))
     <> answer (AuthController.login 1000 "nobody@x.com" "wrong" (healthy locked_alice_db)).
Proof.
  repeat split; try reflexivity. vm_compute. discriminate.
Qed.

Lemma login_while_locked_is_inert_witness :
  let w := healthy locked_alice_db in
  let r := AuthController.login 1000 "a@x.com" "Secur3!Pass" w in
  answer r = AccountLocked
  /\ trace (snd r) = [EvQuery (SelectCredentialsByEmail "a@x.com")]
  /\ store r = locked_alice_db.
Proof.
  intros w r.
  assert (Hnow : 1000 < 900000) by lia.
  destruct (login_while_locked_is_inert locked_alice_db [] 1000 "a@x.com" "Secur3!Pass"
              locked_alice 900000 eq_refl eq_refl Hnow) as (Ha & Ht & _ & Hs & _).
  repeat split; assumption.
Defined.

Lemma error_paths_commit_whole_statements_witness :
  let r := route 0 (PostLogin "a@x.com" "wrong") (healthy alice_db) in
  store r = alice_db
  \/ exists e p u,
       PostLogin "a@x.com" "wrong" = PostLogin e p
       /\ find_by_email e alice_db = Some u
       /\ answer r = InvalidCredentials
       /\ store r = committed 0
                      (UpdateFailedAttempts (failed_login_attempts u + 1)
                         (if (failed_login_attempts u + 1 >=? 5)%Z
                          then Some (0 + 15 * 60 * 1000) else None)
                         (id u)) alice_db.
Proof.
  intros r.
  exact (proj2 (error_paths_commit_whole_statements 0 (PostLogin "a@x.com" "wrong")
                  (healthy alice_db)) eq_refl eq_refl).
Defined.

Lemma token_pair_round_trip_witness :
  exists decoded,
    TokenManager.verifyAccessToken 6000
      (TokenManager.accessToken (TokenManager.generateTokenPair 5000 1 "a@x.com"))
    = Normal decoded
    /\ jwt.userId decoded = 1 /\ jwt.email decoded = Some "a@x.com".
Proof.
  destruct (token_pair_round_trip 5000 1 "a@x.com") as (_ & Haccess & _).
  apply Haccess. vm_compute. reflexivity.
Defined.


(** Scenario of the spec: registration succeeds with a pair whose
    [expiresIn] is 900. *)
Example register_scenario :
  exists user_id created tokens,
    answer (AuthController.register 5000 "salt" "a@x.com" "Secur3!Pass"
              (healthy empty_database))
    = {| status := 201; success := true;
         message := Some "User registered successfully";
         data := Some (RegisteredUser user_id "a@x.com" created tokens) |}
    /\ TokenManager.expiresIn tokens = 900.
Proof. do 3 eexists. split; reflexivity. Qed.

(** Why rotation needs the new token to differ: a refresh served in the
    second the presented token was minted in signs the same payload again,
    so it hands back and stores the very same token, which stays usable. *)
Example refresh_in_the_minting_second :
  let T1 := TokenManager.generateRefreshToken 0 1 in
  let r := AuthController.refreshToken 500 T1 (healthy alice_session_db) in
  data (answer r)
  = Some (NewTokens {| TokenManager.accessToken := TokenManager.generateAccessToken 0 1 "a@x.com";
                       TokenManager.refreshToken := T1;
                       TokenManager.expiresIn := 900 |})
  /\ success (answer (AuthController.refreshToken 900 T1 (snd r))) = true.
Proof. split; reflexivity. Qed.

(** C8 fails on the code: [register] whose third statement (the UPDATE that
    stores the refresh token) fails answers 500 "Registration failed", and
    the record created by the INSERT stays in the table. *)
Lemma register_error_leaves_created_record :
  let w := {| db := empty_database; faults := [false; false; true]; trace := [] |} in
  let req := PostRegister "salt" "b@x.com" "Secur3!Pass" in
  let r := route 5000 req w in
  answer r = failure 500 "Registration failed"
  /\ rows (store r) = [new_user 1 "b@x.com" "Secur3!Pass" 5000]
  /\ ~ no_partial_state 5000 req w.
Proof.
  intros w req r. split; [reflexivity|]. split; [reflexivity|].
  intros [[Hok _]|[_ Hsame]]; [discriminate Hok | discriminate Hsame].
Qed.

(** ** The further properties on concrete inputs *)

(** The table after Alice registered at instant 0. *)
Definition alice_registered_db : Database :=
  after_requests 0 [PostRegister "salt" "a@x.com" "Secur3!Pass"] empty_database.

Lemma reachable_accounts_are_unique_witness :
  NoDup (map users.email (rows (after_requests 0 five_failures empty_database)))
  /\ NoDup (map id (rows (after_requests 0 five_failures empty_database))).
Proof.
  assert (Hreach : reachable (after_requests 0 five_failures empty_database))
    by (apply reachable_after_requests; apply reachable_empty).
  destruct (reachable_accounts_are_unique _ Hreach) as (He & Hi & _).
  split; assumption.
Defined.

Lemma reachable_sessions_are_minted_witness :
  exists u issued expires,
    In u (rows alice_registered_db)
    /\ refresh_token u = Some (TokenManager.generateRefreshToken issued (id u))
    /\ refresh_token_expires u = Some expires.
Proof.
  assert (Hreach : reachable alice_registered_db)
    by (apply reachable_after_requests; apply reachable_empty).
  set (u := set_session (Some (TokenManager.generateRefreshToken 0 1))
                        (Some 604800000) alice).
  assert (Hin : In u (rows alice_registered_db)) by (left; reflexivity).
  destruct (reachable_sessions_are_minted alice_registered_db u Hreach Hin)
    as [[Hnone _]|(issued & expires & Htoken & Hexpires)]; [discriminate Hnone|].
  exists u, issued, expires. split; [exact Hin|]. split; assumption.
Defined.

Lemma login_replaces_session_witness :
  let r := AuthController.login 5000 "a@x.com" "Secur3!Pass" (healthy alice_session_db) in
  InvalidToken
    (answer (AuthController.refreshToken 6000 (TokenManager.generateRefreshToken 0 1)
               {| db := store r; faults := []; trace := [] |})).
Proof.
  intros r.
  set (u := set_session (Some (TokenManager.generateRefreshToken 0 1))
                        (Some 604800000) alice).
  set (payload := {| jwt.userId := 1; jwt.email := None; jwt.type := "refresh";
                     jwt.iat := 0; jwt.exp := 604800; jwt.iss := "secure-auth-api" |}).
  assert (Hlock : lock_expired 5000 u) by (intros l Hl; discriminate Hl).
  assert (Hp : bcrypt.compare "Secur3!Pass" (password_hash u) = true)
    by (vm_compute; reflexivity).
  assert (Hdiff : jwt.JWT payload (jwt.hmac_sha256 JWT_REFRESH_SECRET payload)
                  <> TokenManager.generateRefreshToken 5000 (id u))
    by (intros H; discriminate H).
  destruct (login_replaces_session 5000 "a@x.com" "Secur3!Pass" alice_session_db [] u
              payload (jwt.hmac_sha256 JWT_REFRESH_SECRET payload)
              eq_refl Hlock Hp eq_refl Hdiff) as [_ Hrefused].
  exact (Hrefused 6000 [] []).
Defined.


Lemma register_conflict_witness :
  let r := AuthController.register 5000 "salt" "a@x.com" "Passw0rd!" (healthy alice_db) in
  answer r = Conflict /\ store r = alice_db.
Proof.
  intros r.
  destruct (register_conflict 5000 "salt" "a@x.com" "Passw0rd!" alice_db [] alice eq_refl)
    as (Hanswer & Hstore & _).
  split; assumption.
Defined.

Lemma register_then_login_witness :
  let r := AuthController.register 5000 "salt" "b@x.com" "Passw0rd!" (healthy alice_db) in
  data (answer (AuthController.login 7000 "b@x.com" "Passw0rd!" (snd r)))
  = Some (LoggedInUser 2 "b@x.com" (TokenManager.generateTokenPair 7000 2 "b@x.com")).
Proof.
  intros r.
  assert (Hp : bcrypt.compare "Passw0rd!" (bcrypt.hash "Passw0rd!" 12 "salt") = true)
    by (vm_compute; reflexivity).
  exact (proj2 (register_then_login 5000 7000 "salt" "b@x.com" "Passw0rd!" alice_db []
                  eq_refl Hp)).
Defined.

Lemma login_session_write_failure_witness :
  let r := AuthController.login 5000 "a@x.com" "Secur3!Pass"
             {| db := alice_session_db; faults := [false; false; true]; trace := [] |} in
  answer r = failure 500 "Login failed"
  /\ map session (rows (store r)) = map session (rows alice_session_db).
Proof.
  intros r.
  set (u := set_session (Some (TokenManager.generateRefreshToken 0 1))
                        (Some 604800000) alice).
  assert (Hlock : lock_expired 5000 u) by (intros l Hl; discriminate Hl).
  assert (Hp : bcrypt.compare "Secur3!Pass" (password_hash u) = true)
    by (vm_compute; reflexivity).
  destruct (login_session_write_failure 5000 "a@x.com" "Secur3!Pass" alice_session_db
              [] [] u eq_refl Hlock Hp) as (Hanswer & _ & _ & Hsessions).
  split; assumption.
Defined.

Lemma failed_login_keeps_sessions_witness :
  map session (rows (store (AuthController.login 5000 "a@x.com" "wrong"
                              (healthy alice_session_db))))
  = map session (rows alice_session_db).
Proof.
  assert (Herr : success (answer (AuthController.login 5000 "a@x.com" "wrong"
                                    (healthy alice_session_db))) = false)
    by (vm_compute; reflexivity).
  exact (failed_login_keeps_sessions 5000 "a@x.com" "wrong" (healthy alice_session_db) Herr).
Defined.

Lemma logout_keeps_access_token_witness :
  let access := Bearer (TokenManager.generateAccessToken 0 1 "a@x.com") in
  let r := route 1000 (PostLogout access) (healthy alice_session_db) in
  answer r = logout_success
  /\ me 2000 access = MeUser 1 (Some "a@x.com").
Proof.
  intros access r.
  assert (H1 : 1000 / 1000 < 0 / 1000 + 900) by (vm_compute; reflexivity).
  assert (H2 : 2000 / 1000 < 0 / 1000 + 900) by (vm_compute; reflexivity).
  destruct (logout_keeps_access_token 0 1000 2000 1 "a@x.com" alice_session_db [] H1 H2)
    as (Hanswer & _ & Hme & _).
  split; assumption.
Defined.

Lemma logout_of_unknown_user_witness :
  let user := {| jwt.userId := 7; jwt.email := Some "ghost@x.com"; jwt.type := "access";
                 jwt.iat := 0; jwt.exp := 900; jwt.iss := "secure-auth-api" |} in
  let r := AuthController.logout 1000 user (healthy alice_db) in
  answer r = logout_success /\ store r = alice_db.
Proof.
  intros user r.
  assert (Hnone : Forall (fun u => id u <> jwt.userId user) (rows alice_db))
    by (repeat constructor; discriminate).
  exact (logout_of_unknown_user 1000 user alice_db [] Hnone).
Defined.

Lemma escapeHtml_output_is_clean_witness :
  occurs "<" (escapeHtml "<script>alert('x')</script>") = false.
Proof.
  apply escapeHtml_output_is_clean. left. reflexivity.
Defined.

Lemma escapeHtml_injective_witness :
  escapeHtml "T&C" = escapeHtml "T&C" /\ "T&C" = "T&C".
Proof.
  split; [reflexivity|]. apply escapeHtml_injective. reflexivity.
Defined.


Lemma uncounted_failed_attempt_witness :
  let r := AuthController.login 5000 "a@x.com" "wrong"
             {| db := alice_db; faults := [false; true]; trace := [] |} in
  answer r = failure 500 "Login failed" /\ store r = alice_db.
Proof.
  intros r.
  assert (Hlock : lock_expired 5000 alice) by (intros l Hl; discriminate Hl).
  assert (Hp : bcrypt.compare "wrong" (password_hash alice) = false)
    by (vm_compute; reflexivity).
  exact (uncounted_failed_attempt 5000 "a@x.com" "wrong" alice_db [] [] alice
           eq_refl Hlock Hp).
Defined.

(** ** The code against C1 and C2 *)

(** C1 fails on the code, which means to lock "for 15 minutes" (comment of
    line 107) but stores the lock in a [TIMESTAMP] column without time zone.
    Process in Central European time; Alice's counter is 0; a login that
    begins at [t] reads the clock at [t + 1] for the lock test, at [t + 80]
    for the start of a lock and at [t + 81] to [t + 83] for a session.  Four
    wrong passwords at 2024-10-27T00:49:00Z and a fifth at 00:50:00Z all
    answer [InvalidCredentials], and the fifth writes the lock
    01:05:00.080Z, stored as the wall clock 02:05:00.080.  That wall clock
    falls in the hour repeated at the end of summer time and is parsed back
    as its first occurrence, 00:05:00.080Z, one hour early.  The sixth
    login, one second after the fifth and with the correct password,
    therefore answers 200 instead of [AccountLocked].  In a zone without
    clock changes the same six calls end with [AccountLocked]. *)
Theorem lock_lost_in_the_repeated_hour :
  let t5 := 1729990200000 in
  let clock t :=
    {| Deployed.db_now := t; Deployed.lock_check := t + 1;
       Deployed.lock_start := t + 80; Deployed.access_iat := t + 81;
       Deployed.refresh_iat := t + 82; Deployed.expiry_base := t + 83 |} in
  let run zone :=
    let login t p w := Deployed.login (zone := zone) (clock t) "a@x.com" p w in
    let r1 := login (t5 - 60000) "wrong" (healthy alice_db) in
    let r2 := login (t5 - 60000 + 100) "wrong" (snd r1) in
    let r3 := login (t5 - 60000 + 200) "wrong" (snd r2) in
    let r4 := login (t5 - 60000 + 300) "wrong" (snd r3) in
    let r5 := login t5 "wrong" (snd r4) in
    let r6 := login (t5 + 1000) "Secur3!Pass" (snd r5) in
    (map answer [r1; r2; r3; r4; r5],
     option_map account_locked_until (find_by_email "a@x.com" (store r5)),
     answer r6) in
  let locked_until := t5 + 80 + 15 * 60 * 1000 in
  Deployed.lock_check (clock (t5 + 1000)) < locked_until
  /\ fst (fst (run europe_berlin_autumn_2024))
     = [InvalidCredentials; InvalidCredentials; InvalidCredentials;
        InvalidCredentials; InvalidCredentials]
  /\ snd (fst (run europe_berlin_autumn_2024))
     = Some (Some (@Deployed.to_local europe_berlin_autumn_2024 locked_until))
  /\ @Deployed.from_local europe_berlin_autumn_2024
       (@Deployed.to_local europe_berlin_autumn_2024 locked_until)
     = locked_until - 3600000
  /\ success (snd (run europe_berlin_autumn_2024)) = true
  /\ status (snd (run europe_berlin_autumn_2024)) = 200
  /\ snd (run europe_berlin_autumn_2024) <> AccountLocked
  /\ snd (run utc) = AccountLocked.
Proof.
  intros t5 clock run locked_until. subst t5 clock run locked_until.
  split; [reflexivity|]. split; [vm_compute; reflexivity|].
  split; [vm_compute; reflexivity|]. split; [vm_compute; reflexivity|].
  split; [vm_compute; reflexivity|]. split; [vm_compute; reflexivity|].
  split; [vm_compute; discriminate | vm_compute; reflexivity].
Qed.

(** C2 fails on the code, whose comment (line 197) announces refresh token
    rotation: the payload signed for a refresh token has no more than the
    user id, the type and the second of issue, so a refresh served in the
    second the presented token was minted in signs the same payload again.
    Every clock read has its own instant, all within one second.  Alice logs
    in and receives [T1], signed at instant 11; the refresh presenting [T1],
    verified at instant 500 and signing at instant 505, succeeds and hands
    back and stores [T1] itself; and the refresh presenting [T1] once more,
    at instants 900 to 906, succeeds again. *)
Theorem refresh_token_survives_its_rotation :
  let login_clock :=
    {| Deployed.lock_check := 3; Deployed.lock_start := 4; Deployed.db_now := 2;
       Deployed.access_iat := 10; Deployed.refresh_iat := 11;
       Deployed.expiry_base := 12 |} in
  let refresh_clock t :=
    {| Deployed.verify_at := t; Deployed.refresh_db_now := t + 1;
       Deployed.expiry_check := t + 3; Deployed.new_access_iat := t + 4;
       Deployed.new_refresh_iat := t + 5; Deployed.new_expiry_base := t + 6 |} in
  let r0 := Deployed.login (zone := utc) login_clock "a@x.com" "Secur3!Pass"
              (healthy alice_db) in
  let T1 := TokenManager.generateRefreshToken 11 1 in
  let r1 := Deployed.refreshToken (zone := utc) (refresh_clock 500) T1 (snd r0) in
  let r2 := Deployed.refreshToken (zone := utc) (refresh_clock 900) T1 (snd r1) in
  data (answer r0)
  = Some (LoggedInUser 1 "a@x.com"
            {| TokenManager.accessToken := TokenManager.generateAccessToken 10 1 "a@x.com";
               TokenManager.refreshToken := T1;
               TokenManager.expiresIn := 900 |})
  /\ success (answer r1) = true
  /\ data (answer r1)
     = Some (NewTokens
               {| TokenManager.accessToken := TokenManager.generateAccessToken 504 1 "a@x.com";
                  TokenManager.refreshToken := T1;
                  TokenManager.expiresIn := 900 |})
  /\ option_map refresh_token (find_by_id 1 (store r1)) = Some (Some T1)
  /\ success (answer r2) = true
  /\ option_map refresh_token (find_by_id 1 (store r2)) = Some (Some T1).
Proof.
  intros login_clock refresh_clock r0 T1 r1 r2.
  subst login_clock refresh_clock r0 T1 r1 r2.
  repeat split; vm_compute; reflexivity.
Qed.

(** Alice after 2147483647 counted failures, her last lock long over. *)
Definition alice_at_integer_maximum : Database :=
  {| rows := [set_lockout 2147483647 (Some 900000) None alice]; users_id_seq := 1 |}.

Lemma counter_at_integer_maximum_witness :
  let r := Deployed.login (zone := europe_berlin_autumn_2024)
             (Deployed.at_instant 1729990200000) "a@x.com" "wrong"
             (healthy alice_at_integer_maximum) in
  answer r = failure 500 "Login failed" /\ store r = alice_at_integer_maximum.
Proof.
  intros r.
  assert (Hp : bcrypt.compare "wrong"
                 (password_hash (set_lockout 2147483647 (Some 900000) None alice)) = false)
    by (vm_compute; reflexivity).
  assert (Hlock : forall stored,
             account_locked_until (set_lockout 2147483647 (Some 900000) None alice)
             = Some stored ->
             @Deployed.from_local europe_berlin_autumn_2024 stored
             <= Deployed.lock_check (Deployed.at_instant 1729990200000)).
  { intros stored [= <-]. vm_compute. discriminate. }
  exact (counter_at_integer_maximum (zone := europe_berlin_autumn_2024)
           (Deployed.at_instant 1729990200000) "a@x.com" "wrong"
           alice_at_integer_maximum [] _ eq_refl eq_refl Hlock Hp).
Defined.

End Reference.
